(** * PriceAlert Pro dashboard client: the state synchronisation core

    A shallow embedding of [frontend/app.js]: the global [state] object, the
    REST helpers ([apiRequest], [login], [fetchUserProfile], [fetchAlerts],
    [createAlert], [deleteAlert], [toggleAlert], [logout]), the WebSocket
    handlers installed by [connectWebSocket] and the selection step of
    [renderPriceGrid].

    Conventions of the embedding.
    - A value produced by [JSON.parse] is a [json] tree.  A JSON number is an
      IEEE double; the development is parametric in the type of numbers and
      in the two things the program does with one: test it for truthiness
      and convert it to a string.
    - A JavaScript object is the list of its own enumerable properties in the
      order [Object.entries] enumerates them: array-index keys first, in
      ascending numeric order, then the other keys in insertion order.
    - An [async] function is a function of the outcome of each request it
      awaits; it runs to completion without another task in between.
    - The body of a successful REST response is a typed value (a profile, an
      alert rule, a list of rules): the program reads it without a shape
      check.  The body of a failed one is a [json] tree, searched for
      [detail].
    - DOM rendering, toasts and the clock are collaborators: a call is
      recorded in the [trace] of the world.  [renderPriceGrid] and
      [updateUserUI], whose templates compute on the data, throw where the
      source does, and a call is recorded when it completes; the elements
      they look up are taken to exist. *)

From Stdlib Require Import List String Ascii Bool ZArith NArith Arith Lia.
From Stdlib Require Import Permutation.
From Stdlib Require Import DecimalString.
Import ListNotations.
Open Scope string_scope.
Set Warnings "-register-all".

(** The numbers of the host language, with the two operations the program
    applies to one. *)
Class NumberOps (number : Type) : Type := {
  (** [Boolean(n)]: false for [0] and [-0] (and [NaN], which JSON cannot
      denote). *)
  number_truthy : number -> bool;
  (** [String(n)]. *)
  number_to_string : number -> string
}.

(** The numbers of the examples: the integers a double holds exactly, those
    below [2^53] in magnitude.  One is truthy when it is not zero, and
    [String] prints all its digits (the exponent form starts at [1e21]). *)
Record SafeInteger : Type := {
  int_value : Z;
  int_safe : (Z.abs int_value <? 9007199254740992)%Z = true
}.

Definition int_truthy (n : SafeInteger) : bool := negb (Z.eqb (int_value n) 0).

Definition int_to_string (n : SafeInteger) : string :=
  NilZero.string_of_int (Z.to_int (int_value n)).

#[export] Instance int_number : NumberOps SafeInteger :=
  {| number_truthy := int_truthy; number_to_string := int_to_string |}.

(** The safe integer [z]; integers out of the range stand for no number and
    are read as zero. *)
Definition int (z : Z) : SafeInteger :=
  match (Z.abs z <? 9007199254740992)%Z as b
        return ((Z.abs z <? 9007199254740992)%Z = b -> SafeInteger) with
  | true => fun Hsafe => {| int_value := z; int_safe := Hsafe |}
  | false => fun _ => {| int_value := 0; int_safe := eq_refl |}
  end eq_refl.

Section Dashboard.

Context {number : Type} `{NumberOps number}.

(** ** JSON values *)

Inductive json : Type :=
| JNull
| JBool (b : bool)
| JNum (n : number)
| JStr (s : string)
| JArr (items : list json)
| JObj (fields : list (string * json)).

(** [Boolean(v)], the test of [if (v)] and of [a || b]. *)
Definition truthy (v : json) : bool :=
  match v with
  | JNull => false
  | JBool b => b
  | JNum n => number_truthy n
  | JStr s => negb (String.eqb s "")
  | JArr _ => true
  | JObj _ => true
  end.

(** First binding of a key in a property list. *)
Fixpoint assoc {A : Type} (k : string) (l : list (string * A)) : option A :=
  match l with
  | [] => None
  | (k', v) :: rest => if String.eqb k k' then Some v else assoc k rest
  end.

(** Whether a property list has a key. *)
Definition has_key {A : Type} (k : string) (l : list (string * A)) : bool :=
  match assoc k l with Some _ => true | None => false end.

(** [String(v)], which is also the property key [v] denotes in [o[v]] and the
    [message] of [new Error(v)]; [None] when the conversion throws a type
    error.  An array joins its elements with commas, [null] elements
    printing as the empty string.  An object prints through
    [Object.prototype.toString], unless it has a property [toString] of its
    own: that property came with the parsed data, so it is not a function,
    and neither [toString] nor [valueOf] yields a primitive. *)
Fixpoint to_string (v : json) : option string :=
  match v with
  | JNull => Some "null"
  | JBool true => Some "true"
  | JBool false => Some "false"
  | JNum n => Some (number_to_string n)
  | JStr s => Some s
  | JArr items =>
      (fix join (l : list json) : option string :=
         match l with
         | [] => Some ""
         | x :: rest =>
             match (match x with JNull => Some "" | _ => to_string x end) with
             | Some sx =>
                 match rest with
                 | [] => Some sx
                 | _ :: _ =>
                     match join rest with
                     | Some sr => Some (sx ++ "," ++ sr)
                     | None => None
                     end
                 end
             | None => None
             end
         end) items
  | JObj fields => if has_key "toString" fields then None else Some "[object Object]"
  end.

(** Decimal reading of a string of digits; [None] on any other character and
    on the empty string. *)
Definition digit_of (c : ascii) : option N :=
  let n := N_of_ascii c in
  if (48 <=? n)%N && (n <=? 57)%N then Some (n - 48)%N else None.

Fixpoint digits_value (s : string) (acc : N) : option N :=
  match s with
  | EmptyString => Some acc
  | String c rest =>
      match digit_of c with
      | Some d => digits_value rest (10 * acc + d)%N
      | None => None
      end
  end.

Definition N_to_string (n : N) : string := NilZero.string_of_uint (N.to_uint n).

(** A key is an array index when it is the canonical decimal form of an
    integer below [2^32 - 1]. *)
Definition array_index (k : string) : option N :=
  match k with
  | EmptyString => None
  | _ =>
      match digits_value k 0 with
      | Some n =>
          if String.eqb (N_to_string n) k && (n <? 4294967295)%N
          then Some n else None
      | None => None
      end
  end.

(** The characters of a string as its indexed properties. *)
Fixpoint string_entries (s : string) (i : N) : list (string * json) :=
  match s with
  | EmptyString => []
  | String c rest =>
      (N_to_string i, JStr (String c EmptyString)) :: string_entries rest (N.succ i)
  end.

Fixpoint array_entries (l : list json) (i : N) : list (string * json) :=
  match l with
  | [] => []
  | x :: rest => (N_to_string i, x) :: array_entries rest (N.succ i)
  end.

(** [Object.entries(v)] for [v] neither [undefined] nor [null]: the own
    enumerable string-keyed properties.  Numbers and booleans have none. *)
Definition Object_entries (v : json) : list (string * json) :=
  match v with
  | JObj fields => fields
  | JArr items => array_entries items 0
  | JStr s => string_entries s 0
  | _ => []
  end.

(** [v.k] when it is a property that came with the parsed data; [None] is
    [undefined].  The keys the program reads ([type], [symbol], [prices],
    [price], [detail]) name no built-in member, so for these keys a value
    without the own property yields [undefined]. *)
Definition get_own (v : json) (k : string) : option json :=
  assoc k (Object_entries v).

(** [x === 'tag'] for [x] read from parsed data. *)
Definition is_string (x : option json) (tag : string) : bool :=
  match x with
  | Some (JStr s) => String.eqb s tag
  | _ => false
  end.

(** [x?.price]: [undefined] on [undefined] and [null]. *)
Definition optional_price (x : option json) : option json :=
  match x with
  | Some v => get_own v "price"
  | None => None
  end.

(** ** Own properties of an ordinary object *)

(** Overwriting an existing property keeps its place in the enumeration. *)
Fixpoint replace_value {A : Type} (k : string) (v : A) (l : list (string * A))
  : list (string * A) :=
  match l with
  | [] => []
  | (k', v') :: rest =>
      if String.eqb k k' then (k', v) :: rest
      else (k', v') :: replace_value k v rest
  end.

(** A new array-index key is placed among the index keys, by value. *)
Fixpoint insert_index {A : Type} (n : N) (k : string) (v : A)
  (l : list (string * A)) : list (string * A) :=
  match l with
  | [] => [(k, v)]
  | (k', v') :: rest =>
      match array_index k' with
      | Some m =>
          if (m <? n)%N then (k', v') :: insert_index n k v rest
          else (k, v) :: l
      | None => (k, v) :: l
      end
  end.

(** Creating or overwriting the own data property [k]. *)
Definition define_own {A : Type} (k : string) (v : A) (l : list (string * A))
  : list (string * A) :=
  if has_key k l then replace_value k v l
  else match array_index k with
       | Some n => insert_index n k v l
       | None => l ++ [(k, v)]
       end.

(** ** Configuration and the instrument catalog *)

Definition API_URL : string := "http://localhost:8000".
Definition WS_URL : string := "ws://localhost:8000/prices/ws".
Definition RECONNECT_DELAY : Z := 3000.
Definition PRICE_UPDATE_ANIMATION_DURATION : Z := 300.

(** An entry of [INSTRUMENTS].  The icon glyph is presentation data read by
    the card template only and is not carried. *)
Record Instrument : Type := { name : string; category : string }.

Definition INSTRUMENTS : list (string * Instrument) :=
  [ ("BTC", {| name := "Bitcoin"; category := "crypto" |});
    ("ETH", {| name := "Ethereum"; category := "crypto" |});
    ("SOL", {| name := "Solana"; category := "crypto" |});
    ("XRP", {| name := "Ripple"; category := "crypto" |});
    ("ADA", {| name := "Cardano"; category := "crypto" |});
    ("DOGE", {| name := "Dogecoin"; category := "crypto" |});
    ("DOT", {| name := "Polkadot"; category := "crypto" |});
    ("AVAX", {| name := "Avalanche"; category := "crypto" |});
    ("LINK", {| name := "Chainlink"; category := "crypto" |});
    ("MATIC", {| name := "Polygon"; category := "crypto" |});
    ("LTC", {| name := "Litecoin"; category := "crypto" |});
    ("UNI", {| name := "Uniswap"; category := "crypto" |});
    ("ATOM", {| name := "Cosmos"; category := "crypto" |});
    ("APPLE", {| name := "Apple Inc."; category := "stocks" |});
    ("MICROSOFT", {| name := "Microsoft"; category := "stocks" |});
    ("GOOGLE", {| name := "Alphabet"; category := "stocks" |});
    ("AMAZON", {| name := "Amazon"; category := "stocks" |});
    ("NVIDIA", {| name := "NVIDIA"; category := "stocks" |});
    ("META", {| name := "Meta"; category := "stocks" |});
    ("TESLA", {| name := "Tesla"; category := "stocks" |});
    ("RELIANCE", {| name := "Reliance"; category := "stocks" |});
    ("TCS", {| name := "TCS"; category := "stocks" |});
    ("INFOSYS", {| name := "Infosys"; category := "stocks" |});
    ("NIFTY50", {| name := "NIFTY 50"; category := "indices" |});
    ("SENSEX", {| name := "SENSEX"; category := "indices" |});
    ("SP500", {| name := "S&P 500"; category := "indices" |});
    ("NASDAQ", {| name := "NASDAQ"; category := "indices" |});
    ("DOWJONES", {| name := "Dow Jones"; category := "indices" |});
    ("BANKNIFTY", {| name := "Bank NIFTY"; category := "indices" |});
    ("GOLD", {| name := "Gold"; category := "commodities" |});
    ("SILVER", {| name := "Silver"; category := "commodities" |});
    ("CRUDE_OIL", {| name := "Crude Oil"; category := "commodities" |});
    ("NATURAL_GAS", {| name := "Natural Gas"; category := "commodities" |}) ].

(** [INSTRUMENTS[symbol]?.category]; [None] is [undefined].  A member that
    [INSTRUMENTS] inherits from [Object.prototype] has no [category]. *)
Definition category_of (symbol : string) : option string :=
  match assoc symbol INSTRUMENTS with
  | Some info => Some (category info)
  | None => None
  end.

(** The names [INSTRUMENTS[symbol]] finds on [Object.prototype]. *)
Definition inherited_member (symbol : string) : bool :=
  existsb (String.eqb symbol)
    [ "constructor"; "hasOwnProperty"; "isPrototypeOf"; "propertyIsEnumerable";
      "toLocaleString"; "toString"; "valueOf"; "__proto__";
      "__defineGetter__"; "__defineSetter__"; "__lookupGetter__";
      "__lookupSetter__" ].

(** The category printed on a card by [createPriceCardHTML]:
    [(INSTRUMENTS[symbol] || { category: 'other', ... }).category]. *)
Definition card_category (symbol : string) : option string :=
  match assoc symbol INSTRUMENTS with
  | Some info => Some (category info)
  | None => if inherited_member symbol then None else Some "other"
  end.

(** ** The price cache [state.prices] *)

(** What [state.prices] inherits from: [Object.prototype] as created by the
    literal [{}], until an assignment to the key [__proto__] reaches the
    accessor of [Object.prototype] and replaces it. *)
Inductive Prototype : Type :=
| ObjectPrototype
| NullPrototype
| DataPrototype (p : json).

Record PriceStore : Type := { own : list (string * json); proto : Prototype }.

Definition empty_prices : PriceStore := {| own := []; proto := ObjectPrototype |}.

(** The [__proto__] setter: objects and [null] become the prototype, any
    other value is ignored. *)
Definition set_prototype (v : json) (old : Prototype) : Prototype :=
  match v with
  | JObj _ | JArr _ => DataPrototype v
  | JNull => NullPrototype
  | _ => old
  end.

(** Whether the key [__proto__], looked up from the prototype on, reaches
    the accessor of [Object.prototype] (and not a data property of that name,
    or the end of the chain). *)
Definition reaches_proto_accessor (p : Prototype) : bool :=
  match p with
  | ObjectPrototype => true
  | NullPrototype => false
  | DataPrototype (JObj fields) => negb (has_key "__proto__" fields)
  | DataPrototype _ => true
  end.

(** [state.prices[k] = v]. *)
Definition prices_assign (k : string) (v : json) (st : PriceStore) : PriceStore :=
  if negb (has_key k (own st)) && String.eqb k "__proto__"
     && reaches_proto_accessor (proto st)
  then {| own := own st; proto := set_prototype v (proto st) |}
  else {| own := define_own k v (own st); proto := proto st |}.

(** The entry the cache holds for a symbol. *)
Definition prices_get (st : PriceStore) (k : string) : option json :=
  assoc k (own st).

(** [state.prices[k]?.price], own properties first, then the prototype. *)
Definition prices_price (st : PriceStore) (k : string) : option json :=
  match assoc k (own st) with
  | Some v => optional_price (Some v)
  | None =>
      match proto st with
      | DataPrototype p =>
          match get_own p k with
          | Some v => optional_price (Some v)
          | None => if String.eqb k "__proto__" then get_own p "price" else None
          end
      | _ => None
      end
  end.

(** [Object.entries(state.prices)]. *)
Definition prices_entries (st : PriceStore) : list (string * json) := own st.

(** ** The application state and its environment *)

(** The profile returned by [/auth/me]. *)
Record User : Type := { uid : Z; email : string }.

(** An alert rule as the alert service returns it.  The card reads its [id]
    back with [parseInt], so identifiers are integers. *)
Record AlertRule : Type := {
  id : Z;
  symbol : string;
  condition : string;
  target_price : number;
  active : bool;
  triggered_count : Z;
  notification_types : string
}.

(** [WebSocket.readyState]. *)
Inductive ReadyState : Type := CONNECTING | OPEN | CLOSING | CLOSED.

Definition ReadyState_eqb (a b : ReadyState) : bool :=
  match a, b with
  | CONNECTING, CONNECTING | OPEN, OPEN | CLOSING, CLOSING | CLOSED, CLOSED => true
  | _, _ => false
  end.

(** The global [state] object.  [ws] names a socket of the world. *)
Record AppState : Type := {
  user : option User;
  token : option string;
  alerts : list AlertRule;
  prices : PriceStore;
  ws : option nat;
  isConnected : bool;
  activeFilter : string
}.

(** What a [throw] carries: an [Error] made by the program with its message,
    or an error raised by the engine (whose text is the engine's own). *)
Inductive Exn : Type :=
| Error (message : string)
| TypeError
| SyntaxError
| FetchError.

(** Calls to the collaborators, in the order they happen. *)
Inductive Effect : Type :=
| ConsoleLog (text : string)
| ConsoleError (label : string) (cause : option Exn)
| UpdateConnectionStatus (connected : bool)
| UpdateUserUI
| UpdateStatsUI
| RenderAlerts
| RenderPriceGrid (shown : list (string * json))
| UpdatePriceCard (sym : string) (data : json) (oldPrice : option json)
| SocketSend (socket : nat) (message : json).

(** The function a timer runs; the reconnect timer is the only timer that
    touches the modelled state. *)
Inductive Callback : Type := CallConnectWebSocket.

Record Timer : Type := { delay : Z; callback : Callback }.

(** The state together with what the browser holds for the page: the
    [token] item of [localStorage], the sockets created so far (a socket is
    named by its position), the pending timers and the trace of effects. *)
Record World : Type := {
  state : AppState;
  localStorage : option string;
  sockets : list ReadyState;
  timers : list Timer;
  trace : list Effect
}.

Definition initial_state : AppState :=
  {| user := None; token := None; alerts := []; prices := empty_prices;
     ws := None; isConnected := false; activeFilter := "all" |}.

Definition initial_world (stored : option string) : World :=
  {| state := initial_state; localStorage := stored; sockets := [];
     timers := []; trace := [] |}.

Definition set_state (f : AppState -> AppState) (w : World) : World :=
  {| state := f (state w); localStorage := localStorage w;
     sockets := sockets w; timers := timers w; trace := trace w |}.

Definition emit (e : Effect) (w : World) : World :=
  {| state := state w; localStorage := localStorage w;
     sockets := sockets w; timers := timers w; trace := trace w ++ [e] |}.

Definition set_localStorage (t : option string) (w : World) : World :=
  {| state := state w; localStorage := t;
     sockets := sockets w; timers := timers w; trace := trace w |}.

Definition set_sockets (l : list ReadyState) (w : World) : World :=
  {| state := state w; localStorage := localStorage w;
     sockets := l; timers := timers w; trace := trace w |}.

Definition set_timers (l : list Timer) (w : World) : World :=
  {| state := state w; localStorage := localStorage w;
     sockets := sockets w; timers := l; trace := trace w |}.

Definition set_user (u : option User) (s : AppState) : AppState :=
  {| user := u; token := token s; alerts := alerts s; prices := prices s;
     ws := ws s; isConnected := isConnected s; activeFilter := activeFilter s |}.

Definition set_token (t : option string) (s : AppState) : AppState :=
  {| user := user s; token := t; alerts := alerts s; prices := prices s;
     ws := ws s; isConnected := isConnected s; activeFilter := activeFilter s |}.

Definition set_alerts (l : list AlertRule) (s : AppState) : AppState :=
  {| user := user s; token := token s; alerts := l; prices := prices s;
     ws := ws s; isConnected := isConnected s; activeFilter := activeFilter s |}.

Definition set_prices (p : PriceStore) (s : AppState) : AppState :=
  {| user := user s; token := token s; alerts := alerts s; prices := p;
     ws := ws s; isConnected := isConnected s; activeFilter := activeFilter s |}.

Definition set_ws (x : option nat) (s : AppState) : AppState :=
  {| user := user s; token := token s; alerts := alerts s; prices := prices s;
     ws := x; isConnected := isConnected s; activeFilter := activeFilter s |}.

Definition set_isConnected (b : bool) (s : AppState) : AppState :=
  {| user := user s; token := token s; alerts := alerts s; prices := prices s;
     ws := ws s; isConnected := b; activeFilter := activeFilter s |}.

Definition set_activeFilter (f : string) (s : AppState) : AppState :=
  {| user := user s; token := token s; alerts := alerts s; prices := prices s;
     ws := ws s; isConnected := isConnected s; activeFilter := f |}.

(** ** API functions *)

(** How a call completes: with a value, or by throwing to its caller. *)
Inductive Completion (T : Type) : Type :=
| Return (v : T)
| Throw (e : Exn).
Arguments Return {T} v.
Arguments Throw {T} e.

(** What [fetch] and [response.json()] deliver for one request: no response
    at all, or a response with its [ok] flag and its body, [None] when the
    body does not parse. *)
Inductive FetchOutcome (T : Type) : Type :=
| FetchRejected
| ResponseOk (body : option T)
| ResponseNotOk (body : option json).
Arguments FetchRejected {T}.
Arguments ResponseOk {T} body.
Arguments ResponseNotOk {T} body.

(** What [throw new Error(x)] throws for the value read by [error.detail]:
    an [Error] whose message is [String(x)], and empty when [x] is
    [undefined]; or the type error of the conversion. *)
Definition new_Error (x : option json) : Exn :=
  match x with
  | Some v =>
      match to_string v with
      | Some m => Error m
      | None => TypeError
      end
  | None => Error ""
  end.

(** [error.detail || fallback]. *)
Definition detail_or (error : json) (fallback : string) : option json :=
  match get_own error "detail" with
  | Some d => if truthy d then Some d else Some (JStr fallback)
  | None => Some (JStr fallback)
  end.

(** The body of the [try] block of [apiRequest]. *)
Definition apiRequest_try {T : Type} (o : FetchOutcome T) : Completion T :=
  match o with
  | FetchRejected => Throw FetchError
  | ResponseNotOk body =>
      let error :=
        match body with
        | Some e => e
        | None => JObj [("detail", JStr "Request failed")]
        end in
      match error with
      | JNull => Throw TypeError
      | _ => Throw (new_Error (detail_or error "Request failed"))
      end
  | ResponseOk None => Throw SyntaxError
  | ResponseOk (Some v) => Return v
  end.

Definition apiRequest {T : Type} (o : FetchOutcome T) (w : World)
  : World * Completion T :=
  match apiRequest_try o with
  | Return v => (w, Return v)
  | Throw e => (emit (ConsoleError "API Error:" (Some e)) w, Throw e)
  end.

Definition logout (w : World) : World :=
  let w := set_state (set_user None) w in
  let w := set_state (set_token None) w in
  let w := set_state (set_alerts []) w in
  let w := set_localStorage None w in
  let w := emit UpdateUserUI w in
  emit RenderAlerts w.

(** [updateUserUI]: with a profile, the template reads
    [state.user.email[0].toUpperCase()], which throws a type error for an
    empty [email], before anything is written. *)
Definition updateUserUI (w : World) : World * Completion unit :=
  match user (state w) with
  | Some u =>
      if String.eqb (email u) "" then (w, Throw TypeError)
      else (emit UpdateUserUI w, Return tt)
  | None => (emit UpdateUserUI w, Return tt)
  end.

(** [fetchUserProfile]: the [try] holds the request, the assignment and
    [updateUserUI]; the [catch] calls [logout]. *)
Definition fetchUserProfile (o : FetchOutcome User) (w : World)
  : World * Completion unit :=
  match apiRequest o w with
  | (w, Return u) =>
      let w := set_state (set_user (Some u)) w in
      match updateUserUI w with
      | (w, Return _) => (w, Return tt)
      | (w, Throw _) => (logout w, Return tt)
      end
  | (w, Throw _) => (logout w, Return tt)
  end.

Definition fetchAlerts (o : FetchOutcome (list AlertRule)) (w : World)
  : World * Completion unit :=
  match apiRequest o w with
  | (w, Return l) =>
      let w := set_state (set_alerts l) w in
      let w := emit RenderAlerts w in
      (emit UpdateStatsUI w, Return tt)
  | (w, Throw e) =>
      (emit (ConsoleError "Failed to fetch alerts:" (Some e)) w, Return tt)
  end.

Definition createAlert (o : FetchOutcome AlertRule) (w : World)
  : World * Completion AlertRule :=
  match apiRequest o w with
  | (w, Return alert) =>
      let w := set_state (fun s => set_alerts (alert :: alerts s) s) w in
      let w := emit RenderAlerts w in
      (emit UpdateStatsUI w, Return alert)
  | (w, Throw e) => (w, Throw e)
  end.

Definition deleteAlert (alertId : Z) (o : FetchOutcome json) (w : World)
  : World * Completion unit :=
  match apiRequest o w with
  | (w, Return _) =>
      let w := set_state
        (fun s => set_alerts
           (filter (fun a => negb (Z.eqb (id a) alertId)) (alerts s)) s) w in
      let w := emit RenderAlerts w in
      (emit UpdateStatsUI w, Return tt)
  | (w, Throw e) => (w, Throw e)
  end.

(** [findIndex]: position of the first element that satisfies [p]. *)
Fixpoint findIndex {A : Type} (p : A -> bool) (l : list A) : option nat :=
  match l with
  | [] => None
  | x :: rest =>
      if p x then Some O
      else match findIndex p rest with
           | Some i => Some (S i)
           | None => None
           end
  end.

(** [l[i] = x] for [i] inside [l]. *)
Fixpoint set_nth {A : Type} (i : nat) (x : A) (l : list A) : list A :=
  match l, i with
  | [], _ => []
  | _ :: rest, O => x :: rest
  | y :: rest, S j => y :: set_nth j x rest
  end.

Definition toggleAlert (alertId : Z) (o : FetchOutcome AlertRule) (w : World)
  : World * Completion AlertRule :=
  match apiRequest o w with
  | (w, Return alert) =>
      match findIndex (fun a => Z.eqb (id a) alertId) (alerts (state w)) with
      | Some index =>
          let w := set_state
            (fun s => set_alerts (set_nth index alert (alerts s)) s) w in
          (emit RenderAlerts w, Return alert)
      | None => (w, Return alert)
      end
  | (w, Throw e) => (w, Throw e)
  end.

(** [login]: the token request is a bare [fetch], outside [apiRequest]; the
    body of a successful response is its [access_token]. *)
Definition login (auth : FetchOutcome string) (profile : FetchOutcome User)
  (listing : FetchOutcome (list AlertRule)) (w : World)
  : World * Completion string :=
  match auth with
  | FetchRejected => (w, Throw FetchError)
  | ResponseNotOk body =>
      let error :=
        match body with
        | Some e => e
        | None => JObj [("detail", JStr "Login failed")]
        end in
      match error with
      | JNull => (w, Throw TypeError)
      | _ => (w, Throw (new_Error (get_own error "detail")))
      end
  | ResponseOk None => (w, Throw SyntaxError)
  | ResponseOk (Some access_token) =>
      let w := set_state (set_token (Some access_token)) w in
      let w := set_localStorage (Some access_token) w in
      let w := fst (fetchUserProfile profile w) in
      let w := fst (fetchAlerts listing w) in
      (w, Return access_token)
  end.

Definition register {T : Type} (o : FetchOutcome T) (w : World)
  : World * Completion T :=
  apiRequest o w.

(** The start of [init]: a saved token that is a non-empty string is put
    back, then the profile and the alerts are fetched. *)
Definition restore (profile : FetchOutcome User)
  (listing : FetchOutcome (list AlertRule)) (w : World) : World :=
  match localStorage w with
  | Some savedToken =>
      if negb (String.eqb savedToken "") then
        let w := set_state (set_token (Some savedToken)) w in
        let w := fst (fetchUserProfile profile w) in
        fst (fetchAlerts listing w)
      else w
  | None => w
  end.

(** ** UI rendering: the selection made by [renderPriceGrid] *)

(** The local [pricesToShow]: the entries of the cache, kept when the
    catalog category of the symbol is the filter, all of them for ['all']. *)
Definition pricesToShow (filter_ : string) (st : PriceStore)
  : list (string * json) :=
  if negb (String.eqb filter_ "all") then
    filter (fun entry =>
              match category_of (fst entry) with
              | Some c => String.eqb c filter_
              | None => false
              end)
           (prices_entries st)
  else prices_entries st.

(** Whether [v.toLocaleString(...)] throws, for [v] that converts to a
    primitive: an object with a [toLocaleString] of its own has one that is
    not a function; an array asks each element that is not [null]. *)
Fixpoint toLocaleString_throws (v : json) : bool :=
  match v with
  | JObj fields => has_key "toLocaleString" fields || has_key "toString" fields
  | JArr items =>
      (fix any (l : list json) : bool :=
         match l with
         | [] => false
         | x :: rest =>
             (match x with JNull => false | _ => toLocaleString_throws x end)
             || any rest
         end) items
  | _ => false
  end.

(** Whether converting [v] to a primitive throws, as in [v >= 1000] and in
    [new Date(v)]. *)
Definition to_primitive_throws (v : json) : bool :=
  match to_string v with
  | Some _ => false
  | None => true
  end.

(** Whether [formatPrice(price, symbol)] throws for a [price] that is truthy
    or [0]: the comparisons convert it to a primitive, then one of the three
    branches calls [price.toLocaleString]. *)
Definition formatPrice_throws (price : json) : bool :=
  to_primitive_throws price || toLocaleString_throws price.

(** Whether [createPriceCardHTML(symbol, data)] throws: on [data.price] of
    [null]; on [info.category.toUpperCase()] when [INSTRUMENTS[symbol]] is
    an inherited member; in [formatPrice(data.price || 0, symbol)]; or in
    [formatTime(data.timestamp)] for a truthy timestamp. *)
Definition createPriceCardHTML_throws (symbol_ : string) (data : json) : bool :=
  match data with
  | JNull => true
  | _ =>
      match card_category symbol_ with
      | Some _ => false
      | None => true
      end
      || match get_own data "price" with
         | Some price => truthy price && formatPrice_throws price
         | None => false
         end
      || match get_own data "timestamp" with
         | Some t => truthy t && to_primitive_throws t
         | None => false
         end
  end.

(** [renderPriceGrid]: the loading state for an empty selection, a card per
    entry otherwise; the grid is written only if every card is built. *)
Definition renderPriceGrid (w : World) : World * Completion unit :=
  let shown := pricesToShow (activeFilter (state w)) (prices (state w)) in
  if existsb (fun entry => createPriceCardHTML_throws (fst entry) (snd entry)) shown
  then (w, Throw TypeError)
  else (emit (RenderPriceGrid shown) w, Return tt).

(** A call inside a [try]: the [catch] clause runs on what was thrown. *)
Definition catch_with {T : Type} (r : World * Completion T)
  (handler : Exn -> World -> World) : World :=
  match r with
  | (w, Return _) => w
  | (w, Throw e) => handler e w
  end.

(** ** WebSocket connection *)

(** [state.ws?.readyState === WebSocket.OPEN]. *)
Definition ws_is_open (w : World) : bool :=
  match ws (state w) with
  | Some i =>
      match nth_error (sockets w) i with
      | Some r => ReadyState_eqb r OPEN
      | None => false
      end
  | None => false
  end.

(** [connectWebSocket]: nothing when the current socket is open; otherwise a
    new socket, which starts connecting, replaces [state.ws].  The four
    handlers below are installed on every socket it creates. *)
Definition connectWebSocket (w : World) : World :=
  if ws_is_open w then w
  else
    let i := List.length (sockets w) in
    let w := set_sockets (sockets w ++ [CONNECTING]) w in
    set_state (set_ws (Some i)) w.

Definition onopen (w : World) : World :=
  let w := emit (ConsoleLog "WebSocket connected") w in
  let w := set_state (set_isConnected true) w in
  emit (UpdateConnectionStatus true) w.

(** [setTimeout(f, ms)]. *)
Definition setTimeout (f : Callback) (ms : Z) (w : World) : World :=
  set_timers (timers w ++ [{| delay := ms; callback := f |}]) w.

Definition onclose (w : World) : World :=
  let w := emit (ConsoleLog "WebSocket disconnected") w in
  let w := set_state (set_isConnected false) w in
  let w := emit (UpdateConnectionStatus false) w in
  setTimeout CallConnectWebSocket RECONNECT_DELAY w.

Definition onerror (w : World) : World :=
  emit (ConsoleError "WebSocket error:" None) w.

(** The [catch] clause of [onmessage]. *)
Definition message_error (e : Exn) (w : World) : World :=
  emit (ConsoleError "WebSocket message error:" (Some e)) w.

(** [Object.entries(prices).forEach(([symbol, priceData]) =>
    state.prices[symbol] = priceData)]. *)
Definition merge_entries (entries : list (string * json)) (w : World) : World :=
  fold_left
    (fun w entry =>
       set_state
         (fun s => set_prices (prices_assign (fst entry) (snd entry) (prices s)) s)
         w)
    entries w.

(** The branches of [onmessage] on a parsed frame that is not [null].  The
    [catch] clause also takes what [renderPriceGrid] throws after a snapshot
    was merged, and the type error of a [symbol] that does not convert to a
    property key, thrown before anything is stored. *)
Definition onmessage_branches (data : json) (w : World) : World :=
  if is_string (get_own data "type") "snapshot" then
    match get_own data "prices" with
    | None | Some JNull => message_error TypeError w
    | Some p =>
        catch_with (renderPriceGrid (merge_entries (Object_entries p) w))
          message_error
    end
  else if is_string (get_own data "type") "heartbeat" then w
  else
    match get_own data "symbol" with
    | Some sym =>
        if truthy sym then
          match to_string sym with
          | Some key =>
              let oldPrice := prices_price (prices (state w)) key in
              let w := set_state
                (fun s => set_prices (prices_assign key data (prices s)) s) w in
              emit (UpdatePriceCard key data oldPrice) w
          | None => message_error TypeError w
          end
        else w
    | None => w
    end.

(** [onmessage], given what [JSON.parse(event.data)] yields, [None] when it
    throws.  Reading [data.type] of [null] throws as well; both end in the
    [catch] clause. *)
Definition onmessage (parsed : option json) (w : World) : World :=
  match parsed with
  | None => message_error SyntaxError w
  | Some JNull => message_error TypeError w
  | Some data => onmessage_branches data w
  end.

Definition sendWebSocketMessage (message : json) (w : World) : World :=
  if ws_is_open w then
    match ws (state w) with
    | Some i => emit (SocketSend i message) w
    | None => w
    end
  else w.

(** ** The event loop *)

(** The click on a filter tab: [state.activeFilter = ...; renderPriceGrid()].
    The listener has no [catch]; an error of the rendering ends it. *)
Definition selectFilter (filter_ : string) (w : World) : World :=
  fst (renderPriceGrid (set_state (set_activeFilter filter_) w)).

(** The end of [init]: the prices fetched over REST, a bare [fetch] inside a
    [try] whose [catch] only logs, also when [renderPriceGrid] throws.
    [data.prices || {}] is merged. *)
Definition fetchInitialPrices (o : FetchOutcome json) (w : World) : World :=
  match o with
  | FetchRejected => emit (ConsoleLog "Waiting for backend to start...") w
  | ResponseNotOk _ => w
  | ResponseOk None => emit (ConsoleLog "Waiting for backend to start...") w
  | ResponseOk (Some JNull) =>
      emit (ConsoleLog "Waiting for backend to start...") w
  | ResponseOk (Some data) =>
      let entries :=
        match get_own data "prices" with
        | Some p => if truthy p then Object_entries p else []
        | None => []
        end in
      catch_with (renderPriceGrid (merge_entries entries w))
        (fun _ => emit (ConsoleLog "Waiting for backend to start..."))
  end.

(** What the page does for its user or for [init], each with the outcome of
    the requests it makes. *)
Inductive Action : Type :=
| DoLogin (auth : FetchOutcome string) (profile : FetchOutcome User)
    (listing : FetchOutcome (list AlertRule))
| DoLogout
| DoCreateAlert (o : FetchOutcome AlertRule)
| DoDeleteAlert (alertId : Z) (o : FetchOutcome json)
| DoToggleAlert (alertId : Z) (o : FetchOutcome AlertRule)
| DoSelectFilter (filter_ : string)
| DoSend (message : json)
| DoFetchInitialPrices (o : FetchOutcome json).

Definition perform (a : Action) (w : World) : World :=
  match a with
  | DoLogin auth profile listing => fst (login auth profile listing w)
  | DoLogout => logout w
  | DoCreateAlert o => fst (createAlert o w)
  | DoDeleteAlert alertId o => fst (deleteAlert alertId o w)
  | DoToggleAlert alertId o => fst (toggleAlert alertId o w)
  | DoSelectFilter filter_ => selectFilter filter_ w
  | DoSend message => sendWebSocketMessage message w
  | DoFetchInitialPrices o => fetchInitialPrices o w
  end.

(** A task of the page: something the browser delivers, or an action. *)
Inductive Event : Type :=
| SocketOpen (socket : nat)
| SocketMessage (socket : nat) (parsed : option json)
| SocketError (socket : nat)
| SocketClose (socket : nat)
| TimerFire (index : nat)
| PageAction (a : Action).

Definition run_callback (f : Callback) (w : World) : World :=
  match f with
  | CallConnectWebSocket => connectWebSocket w
  end.

Fixpoint remove_nth {A : Type} (i : nat) (l : list A) : list A :=
  match l, i with
  | [], _ => []
  | _ :: rest, O => rest
  | x :: rest, S j => x :: remove_nth j rest
  end.

(** One task.  The browser updates [readyState] before it calls [onopen] or
    [onclose]; a due timer leaves the pending list as its callback runs. *)
Definition step (ev : Event) (w : World) : World :=
  match ev with
  | SocketOpen i =>
      match nth_error (sockets w) i with
      | Some _ => onopen (set_sockets (set_nth i OPEN (sockets w)) w)
      | None => w
      end
  | SocketMessage i parsed =>
      match nth_error (sockets w) i with
      | Some _ => onmessage parsed w
      | None => w
      end
  | SocketError i =>
      match nth_error (sockets w) i with
      | Some _ => onerror w
      | None => w
      end
  | SocketClose i =>
      match nth_error (sockets w) i with
      | Some _ => onclose (set_sockets (set_nth i CLOSED (sockets w)) w)
      | None => w
      end
  | TimerFire n =>
      match nth_error (timers w) n with
      | Some t => run_callback (callback t) (set_timers (remove_nth n (timers w)) w)
      | None => w
      end
  | PageAction a => perform a w
  end.

Definition run (evs : list Event) (w : World) : World :=
  fold_left (fun w ev => step ev w) evs w.

(** The contract of the browser: a socket opens once, while connecting;
    delivers messages while open; closes once; a timer fires while pending.
    An action of the page can come at any time. *)
Definition permitted (ev : Event) (w : World) : bool :=
  match ev with
  | SocketOpen i =>
      match nth_error (sockets w) i with
      | Some r => ReadyState_eqb r CONNECTING
      | None => false
      end
  | SocketMessage i _ =>
      match nth_error (sockets w) i with
      | Some r => ReadyState_eqb r OPEN
      | None => false
      end
  | SocketError i | SocketClose i =>
      match nth_error (sockets w) i with
      | Some r => negb (ReadyState_eqb r CLOSED)
      | None => false
      end
  | TimerFire n => Nat.ltb n (List.length (timers w))
  | PageAction _ => true
  end.

Fixpoint conforming (evs : list Event) (w : World) : bool :=
  match evs with
  | [] => true
  | ev :: rest => permitted ev w && conforming rest (step ev w)
  end.

(** The world once [init] has called [connectWebSocket]. *)
Definition started (stored : option string) : World :=
  connectWebSocket (initial_world stored).

(** ** The views of the specification, for comparison *)

(** The filtered view as the specification words it: the catalog is walked
    in its own order and a symbol is listed, with its quote, when its
    category is the filter and the cache holds a quote for it. *)
Definition filteredView_spec (filter_ : string) (st : PriceStore)
  : list (string * json) :=
  flat_map
    (fun entry =>
       if String.eqb (category (snd entry)) filter_ then
         match prices_get st (fst entry) with
         | Some q => [(fst entry, q)]
         | None => []
         end
       else [])
    INSTRUMENTS.

(** ** Vocabulary of the properties *)

(** The timer [onclose] arms. *)
Definition reconnect_timer : Timer :=
  {| delay := RECONNECT_DELAY; callback := CallConnectWebSocket |}.

(** Sockets that have not closed yet. *)
Definition live_sockets (l : list ReadyState) : nat :=
  List.length (filter (fun r => negb (ReadyState_eqb r CLOSED)) l).

(** The invariant of the reconnect loop: a pending reconnect timer or a
    socket that has not closed, one of them and only one. *)
Definition one_attempt (w : World) : Prop :=
  List.length (timers w) + live_sockets (sockets w) = 1
  /\ Forall (fun t => t = reconnect_timer) (timers w).

(** No session: neither a token nor a profile. *)
Definition anonymous (s : AppState) : Prop :=
  token s = None /\ user s = None.

(** A frame [onmessage] takes for none of snapshot, heartbeat and delta: it
    does not parse, or its [type] is neither tag and its [symbol] is absent
    or falsy. *)
Definition no_recognised_shape (parsed : option json) : bool :=
  match parsed with
  | None => true
  | Some data =>
      negb (is_string (get_own data "type") "snapshot")
      && negb (is_string (get_own data "type") "heartbeat")
      && match get_own data "symbol" with
         | Some sym => negb (truthy sym)
         | None => true
         end
  end.

(** What [onmessage] logs for such a frame: the exception it caught, if it
    caught one. *)
Definition logged_for (parsed : option json) : list Effect :=
  match parsed with
  | None => [ConsoleError "WebSocket message error:" (Some SyntaxError)]
  | Some JNull => [ConsoleError "WebSocket message error:" (Some TypeError)]
  | Some _ => []
  end.

(** Whether a symbol passes a filter of [renderPriceGrid]. *)
Definition shows (filter_ symbol_ : string) : bool :=
  String.eqb filter_ "all"
  || match category_of symbol_ with
     | Some c => String.eqb c filter_
     | None => false
     end.

(** The cache lists a symbol once. *)
Definition prices_wf (st : PriceStore) : Prop := NoDup (map fst (own st)).

(** ** More of the page: statistics, the alert list, the form handlers *)

(** The two figures [updateStatsUI] writes: the number of active rules and
    the sum of [a.triggered_count || 0]. *)
Definition activeCount (l : list AlertRule) : nat :=
  List.length (filter (fun a => active a) l).

Definition triggeredCount (l : list AlertRule) : Z :=
  fold_left
    (fun sum a =>
       (sum + (if Z.eqb (triggered_count a) 0 then 0 else triggered_count a))%Z)
    l 0%Z.

(** What [renderAlerts] puts in the list: a prompt to sign in when there is
    no profile, a notice when there is no rule, a card per rule otherwise. *)
Inductive AlertsView : Type :=
| SignInPrompt
| NoAlertsYet
| AlertCards (cards : list AlertRule).

Definition alertsView (s : AppState) : AlertsView :=
  match user s with
  | None => SignInPrompt
  | Some _ =>
      match alerts s with
      | [] => NoAlertsYet
      | l => AlertCards l
      end
  end.

(** [renderPriceGrid] shows the loading state when [pricesToShow] is
    empty. *)
Definition gridLoading (s : AppState) : bool :=
  match pricesToShow (activeFilter s) (prices s) with
  | [] => true
  | _ :: _ => false
  end.

(** [showToast(message, type)].  The text of an error toast is
    [error.message || fallback]: for an [Error] of the program, its message
    unless empty; for an error of the engine, the engine's text unless
    empty. *)
Inductive ToastType : Type := ToastSuccess | ToastError | ToastInfo.

Inductive ToastText : Type :=
| Text (s : string)
| EngineTextOr (e : Exn) (fallback : string).

Record Toast : Type := { toastText : ToastText; toastType : ToastType }.

Definition message_or (e : Exn) (fallback : string) : ToastText :=
  match e with
  | Error m => Text (if String.eqb m "" then fallback else m)
  | _ => EngineTextOr e fallback
  end.

(** What a handler leaves behind besides the world: the toast it showed,
    whether it closed its modal, and the rejection nobody caught. *)
Record Handled : Type := {
  toast : option Toast;
  modalClosed : bool;
  unhandled : option Exn
}.

(** The submit handler of the sign-in form: [login], or [register] then
    [login]; any failure ends in the error toast. *)
Definition authSubmit (isLoginMode : bool) (registration : FetchOutcome json)
  (auth : FetchOutcome string) (profile : FetchOutcome User)
  (listing : FetchOutcome (list AlertRule)) (w : World) : World * Handled :=
  let failed e :=
    {| toast := Some {| toastText := message_or e "Authentication failed";
                        toastType := ToastError |};
       modalClosed := false; unhandled := None |} in
  let done text :=
    {| toast := Some {| toastText := Text text; toastType := ToastSuccess |};
       modalClosed := true; unhandled := None |} in
  if isLoginMode then
    match login auth profile listing w with
    | (w, Return _) => (w, done "Welcome back!")
    | (w, Throw e) => (w, failed e)
    end
  else
    match register registration w with
    | (w, Return _) =>
        match login auth profile listing w with
        | (w, Return _) => (w, done "Account created successfully!")
        | (w, Throw e) => (w, failed e)
        end
    | (w, Throw e) => (w, failed e)
    end.

(** The submit handler of the alert form. *)
Definition alertSubmit (o : FetchOutcome AlertRule) (w : World)
  : World * Handled :=
  match createAlert o w with
  | (w, Return _) =>
      (w, {| toast := Some {| toastText := Text "Alert created successfully!";
                              toastType := ToastSuccess |};
             modalClosed := true; unhandled := None |})
  | (w, Throw e) =>
      (w, {| toast := Some {| toastText := message_or e "Failed to create alert";
                              toastType := ToastError |};
             modalClosed := false; unhandled := None |})
  end.

(** The click handlers [renderAlerts] puts on a card: neither has a
    [catch]. *)
Definition toggleClick (alertId : Z) (o : FetchOutcome AlertRule) (w : World)
  : World * Handled :=
  match toggleAlert alertId o w with
  | (w, Return _) =>
      (w, {| toast := None; modalClosed := false; unhandled := None |})
  | (w, Throw e) =>
      (w, {| toast := None; modalClosed := false; unhandled := Some e |})
  end.

Definition deleteClick (confirmed : bool) (alertId : Z) (o : FetchOutcome json)
  (w : World) : World * Handled :=
  if confirmed then
    match deleteAlert alertId o w with
    | (w, Return _) =>
        (w, {| toast := Some {| toastText := Text "Alert deleted";
                                toastType := ToastSuccess |};
               modalClosed := false; unhandled := None |})
    | (w, Throw e) =>
        (w, {| toast := None; modalClosed := false; unhandled := Some e |})
    end
  else (w, {| toast := None; modalClosed := false; unhandled := None |}).

(** ** [debounce] *)

(** The closure [debounce(func, wait)] returns, as the state it keeps: the
    timer [timeout] refers to while it is pending, with its due time and the
    arguments its [later] will pass on; and, for the record, the calls of
    [func] made so far with their times. *)
Record Debounced (A : Type) : Type := {
  pendingCall : option (Z * A);
  invoked : list (Z * A)
}.
Arguments pendingCall {A} d.
Arguments invoked {A} d.

Definition debounce_new (A : Type) : Debounced A :=
  {| pendingCall := None; invoked := [] |}.

(** A call of the closure at time [now]: [clearTimeout(timeout)], then
    [timeout = setTimeout(later, wait)]. *)
Definition executedFunction {A : Type} (wait now : Z) (args : A)
  (d : Debounced A) : Debounced A :=
  {| pendingCall := Some ((now + wait)%Z, args); invoked := invoked d |}.

(** The pending timer fires at time [now]: [later] runs [func(...args)].  A
    timer does not fire before it is due. *)
Definition later {A : Type} (now : Z) (d : Debounced A) : Debounced A :=
  match pendingCall d with
  | Some (due, args) =>
      if (due <=? now)%Z
      then {| pendingCall := None; invoked := (invoked d ++ [(now, args)])%list |}
      else d
  | None => d
  end.

Inductive DebounceEvent (A : Type) : Type :=
| Called (now : Z) (args : A)
| TimerDue (now : Z).
Arguments Called {A} now args.
Arguments TimerDue {A} now.

Definition debounce_step {A : Type} (wait : Z) (d : Debounced A)
  (ev : DebounceEvent A) : Debounced A :=
  match ev with
  | Called now args => executedFunction wait now args d
  | TimerDue now => later now d
  end.

Definition debounce_run {A : Type} (wait : Z) (evs : list (DebounceEvent A))
  (d : Debounced A) : Debounced A :=
  fold_left (debounce_step wait) evs d.

(** ** More vocabulary *)

(** The order [Object.entries] keeps: every array-index key before every
    other key, the array-index keys in ascending order. *)
Fixpoint keys_ordered (ks : list string) : Prop :=
  match ks with
  | [] => True
  | k :: rest =>
      match array_index k with
      | Some n =>
          Forall (fun k' => match array_index k' with
                            | Some m => (n < m)%N
                            | None => True
                            end) rest
      | None => Forall (fun k' => array_index k' = None) rest
      end
      /\ keys_ordered rest
  end.

(** A task that can write to the price cache: a message with a snapshot
    tag, or with a truthy symbol and no heartbeat tag, or the answer to the
    first price request. *)
Definition carries_prices (ev : Event) : bool :=
  match ev with
  | SocketMessage _ (Some data) =>
      is_string (get_own data "type") "snapshot"
      || (negb (is_string (get_own data "type") "heartbeat")
          && match get_own data "symbol" with
             | Some sym => truthy sym
             | None => false
             end)
  | PageAction (DoFetchInitialPrices (ResponseOk (Some _))) => true
  | _ => false
  end.

(** The connection as the page sees it, when the browser keeps its
    contract: one attempt at a time, no live socket but the current one, and
    a connectivity flag that tells whether the current socket is open. *)
Definition single_connection (w : World) : Prop :=
  one_attempt w
  /\ (forall i r, nth_error (sockets w) i = Some r ->
                  ReadyState_eqb r CLOSED = false -> ws (state w) = Some i)
  /\ isConnected (state w) = ws_is_open w.

(** The three facts a task keeps about the cache: one entry per symbol,
    the order of [Object.entries], and no entry lost. *)
Definition cache_kept (w w' : World) : Prop :=
  (prices_wf (prices (state w)) -> prices_wf (prices (state w')))
  /\ (keys_ordered (map fst (own (prices (state w)))) ->
      keys_ordered (map fst (own (prices (state w')))))
  /\ (forall k, has_key k (own (prices (state w))) = true ->
                has_key k (own (prices (state w'))) = true).

(** Where the calls of [func] come from: each was asked for by a call of
    the closure with the same arguments, at least [wait] earlier. *)
Definition debounce_sound {A : Type} (wait : Z) (evs : list (DebounceEvent A))
  (d : Debounced A) : Prop :=
  (forall t args, In (t, args) (invoked d) ->
     exists tc, In (Called tc args) evs /\ (tc + wait <= t)%Z)
  /\ (forall due args, pendingCall d = Some (due, args) ->
        exists tc, In (Called tc args) evs /\ due = (tc + wait)%Z)
  /\ List.length (invoked d)
     + (match pendingCall d with Some _ => 1 | None => 0 end)
     <= List.length (filter (fun ev => match ev with
                                       | Called _ _ => true
                                       | TimerDue _ => false
                                       end) evs).

(** Two worlds that differ in their trace at most. *)
Definition only_trace (w w' : World) : Prop :=
  state w' = state w /\ localStorage w' = localStorage w
  /\ sockets w' = sockets w /\ timers w' = timers w.

(** Rule identifiers of the registry. *)
Definition ids (l : list AlertRule) : list Z := map id l.

(** ** Property lists *)

Lemma assoc_In {A : Type} (k : string) (v : A) (l : list (string * A)) :
  assoc k l = Some v -> In (k, v) l.
Proof.
  induction l as [|[k' v'] rest IH]; simpl; [discriminate|].
  destruct (String.eqb k k') eqn:E.
  - apply String.eqb_eq in E. intros [= ->]. subst. now left.
  - intros Hrest. right. now apply IH.
Qed.

Lemma assoc_None_not_key {A : Type} (k : string) (l : list (string * A)) :
  assoc k l = None -> ~ In k (map fst l).
Proof.
  induction l as [|[k' v'] rest IH]; simpl; [tauto|].
  destruct (String.eqb k k') eqn:E; [discriminate|].
  apply String.eqb_neq in E. intros Hrest [Heq|Hin]; [congruence|].
  now apply IH.
Qed.

Lemma In_assoc {A : Type} (k : string) (v : A) (l : list (string * A)) :
  NoDup (map fst l) -> In (k, v) l -> assoc k l = Some v.
Proof.
  induction l as [|[k' v'] rest IH]; simpl; [tauto|].
  intros Hnd [Heq|Hin].
  - injection Heq as -> ->. now rewrite String.eqb_refl.
  - inversion Hnd as [|? ? Hnotin Hrest]; subst.
    destruct (String.eqb k k') eqn:E.
    + apply String.eqb_eq in E. subst. exfalso. apply Hnotin.
      change k' with (fst (k', v)). now apply in_map.
    + now apply IH.
Qed.

Lemma replace_value_keys {A : Type} (k : string) (v : A) (l : list (string * A)) :
  map fst (replace_value k v l) = map fst l.
Proof.
  induction l as [|[k' v'] rest IH]; simpl; [reflexivity|].
  destruct (String.eqb k k'); simpl; [reflexivity|]. now rewrite IH.
Qed.

Lemma assoc_replace_same {A : Type} (k : string) (v : A) (l : list (string * A)) :
  has_key k l = true -> assoc k (replace_value k v l) = Some v.
Proof.
  unfold has_key.
  induction l as [|[k' v'] rest IH]; simpl; [discriminate|].
  destruct (String.eqb k k') eqn:E; simpl; rewrite E; [reflexivity|].
  exact IH.
Qed.

Lemma assoc_replace_other {A : Type} (k k0 : string) (v : A)
  (l : list (string * A)) :
  k0 <> k -> assoc k0 (replace_value k v l) = assoc k0 l.
Proof.
  intros Hne.
  induction l as [|[k' v'] rest IH]; simpl; [reflexivity|].
  destruct (String.eqb k k') eqn:E; simpl.
  - apply String.eqb_eq in E. subst k'.
    apply String.eqb_neq in Hne. now rewrite Hne.
  - now rewrite IH.
Qed.

(** A selection by key sees the same keys after an overwrite. *)
Lemma filter_replace_value_keys {A : Type} (p : string -> bool) (k : string)
  (v : A) (l : list (string * A)) :
  map fst (filter (fun e => p (fst e)) (replace_value k v l))
  = map fst (filter (fun e => p (fst e)) l).
Proof.
  induction l as [|[k' v'] rest IH]; simpl; [reflexivity|].
  destruct (String.eqb k k'); simpl.
  - destruct (p k'); reflexivity.
  - destruct (p k'); simpl; now rewrite IH.
Qed.

Lemma insert_index_Permutation {A : Type} (n : N) (k : string) (v : A)
  (l : list (string * A)) :
  Permutation (insert_index n k v l) ((k, v) :: l).
Proof.
  induction l as [|[k' v'] rest IH]; simpl; [reflexivity|].
  destruct (array_index k') as [m|]; [|reflexivity].
  destruct (m <? n)%N; [|reflexivity].
  rewrite IH. apply perm_swap.
Qed.

Lemma define_own_NoDup {A : Type} (k : string) (v : A) (l : list (string * A)) :
  NoDup (map fst l) -> NoDup (map fst (define_own k v l)).
Proof.
  intros Hnd. unfold define_own, has_key.
  destruct (assoc k l) eqn:Hk.
  - now rewrite replace_value_keys.
  - apply assoc_None_not_key in Hk.
    assert (Hcons : NoDup (map fst ((k, v) :: l))) by (simpl; now constructor).
    destruct (array_index k) as [n|].
    + eapply Permutation_NoDup; [|exact Hcons].
      apply Permutation_map. symmetry. apply insert_index_Permutation.
    + eapply Permutation_NoDup; [|exact Hcons].
      apply Permutation_map. apply Permutation_cons_append.
Qed.

(** The cache starts, and stays, with one entry per symbol. *)
Lemma empty_prices_wf : prices_wf empty_prices.
Proof. unfold prices_wf; simpl. constructor. Qed.

Lemma prices_assign_wf (k : string) (v : json) (st : PriceStore) :
  prices_wf st -> prices_wf (prices_assign k v st).
Proof.
  unfold prices_wf, prices_assign. intros Hwf.
  destruct (negb (has_key k (own st)) && String.eqb k "__proto__"
            && reaches_proto_accessor (proto st)); simpl.
  - exact Hwf.
  - now apply define_own_NoDup.
Qed.

(** An assignment to a symbol the cache holds overwrites its entry, where it
    stands. *)
Lemma prices_assign_held (k : string) (v : json) (st : PriceStore) :
  has_key k (own st) = true ->
  prices_assign k v st
  = {| own := replace_value k v (own st); proto := proto st |}.
Proof.
  intros Hk. unfold prices_assign, define_own. now rewrite Hk.
Qed.

(** The first assignment to a symbol that is no array index (and not the
    key [__proto__]) adds its entry after all others. *)
Lemma prices_assign_fresh (k : string) (v : json) (st : PriceStore) :
  has_key k (own st) = false -> array_index k = None -> k <> "__proto__" ->
  prices_assign k v st = {| own := own st ++ [(k, v)]; proto := proto st |}.
Proof.
  intros Hk Hix Hne. unfold prices_assign, define_own.
  apply String.eqb_neq in Hne. rewrite Hk, Hix, Hne. reflexivity.
Qed.

Lemma has_key_get (k : string) (st : PriceStore) :
  has_key k (own st) = match prices_get st k with Some _ => true | None => false end.
Proof. reflexivity. Qed.

(** ** The filtered view *)

Lemma pricesToShow_filter (filter_ : string) (st : PriceStore) :
  pricesToShow filter_ st
  = filter (fun e => shows filter_ (fst e)) (prices_entries st).
Proof.
  unfold pricesToShow, shows.
  destruct (String.eqb filter_ "all"); simpl; [|reflexivity].
  induction (prices_entries st) as [|e rest IH]; simpl; [reflexivity|].
  now rewrite <- IH.
Qed.

Lemma shows_spec (filter_ symbol_ : string) :
  shows filter_ symbol_ = true
  <-> filter_ = "all" \/ category_of symbol_ = Some filter_.
Proof.
  unfold shows. rewrite orb_true_iff, String.eqb_eq.
  destruct (category_of symbol_) as [c|].
  - rewrite String.eqb_eq. split; intros [Hall|Hc]; auto.
    + right. now subst.
    + right. now injection Hc.
  - split; intros [Hall|Hc]; auto; discriminate.
Qed.

(** C3, as amended.  On a cache with one entry per symbol, the view holds
    exactly the entries of the cache whose symbol has the filter as its
    catalog category (every entry for ["all"]), and it lists them in the
    order of the cache, which is the order of first arrival: the first quote
    of a symbol that is neither an array index nor [__proto__] is listed
    last, and a later quote takes the place of the one it replaces. *)
Theorem filtered_view_in_cache_order (filter_ : string) (st : PriceStore)
  (Hwf : prices_wf st) :
  (forall s q,
      In (s, q) (pricesToShow filter_ st)
      <-> prices_get st s = Some q
          /\ (filter_ = "all" \/ category_of s = Some filter_))
  /\ (forall s q,
        prices_get st s = None -> array_index s = None -> s <> "__proto__" ->
        pricesToShow filter_ (prices_assign s q st)
        = (pricesToShow filter_ st
           ++ (if shows filter_ s then [(s, q)] else []))%list)
  /\ (forall s q,
        prices_get st s <> None ->
        map fst (pricesToShow filter_ (prices_assign s q st))
        = map fst (pricesToShow filter_ st)).
Proof.
  split; [|split].
  - intros s q. rewrite pricesToShow_filter, filter_In. simpl.
    rewrite shows_spec. split.
    + intros [Hin Hshow]. split; [now apply In_assoc | exact Hshow].
    + intros [Hget Hshow]. split; [now apply assoc_In | exact Hshow].
  - intros s q Hget Hix Hne.
    rewrite prices_assign_fresh; auto.
    + rewrite !pricesToShow_filter. unfold prices_entries; simpl.
      rewrite filter_app. simpl. now destruct (shows filter_ s).
    + rewrite has_key_get. now rewrite Hget.
  - intros s q Hget.
    rewrite prices_assign_held.
    + rewrite !pricesToShow_filter. unfold prices_entries; simpl.
      apply (filter_replace_value_keys (shows filter_)).
    + rewrite has_key_get. destruct (prices_get st s); congruence.
Qed.

(** The category [createPriceCardHTML] prints for a symbol outside the
    catalog is ["other"], unless the symbol names an inherited member. *)
Lemma card_category_uncatalogued (s : string) :
  category_of s = None -> inherited_member s = false ->
  card_category s = Some "other".
Proof.
  unfold category_of, card_category.
  destruct (assoc s INSTRUMENTS); [discriminate|].
  now intros _ ->.
Qed.

(** C10.  A symbol the cache holds a quote for but the catalog does not
    list is in the view of no category filter, ["other"] included, and it
    is in the view of ["all"], which is the whole cache. *)
Theorem uncatalogued_symbol_views (st : PriceStore) (s : string) (q : json)
  (Hheld : prices_get st s = Some q) (Hout : category_of s = None) :
  (forall filter_, filter_ <> "all" ->
     ~ In s (map fst (pricesToShow filter_ st)))
  /\ ~ In s (map fst (pricesToShow "other" st))
  /\ In (s, q) (pricesToShow "all" st)
  /\ pricesToShow "all" st = prices_entries st.
Proof.
  assert (Hno : forall filter_, filter_ <> "all" ->
                  ~ In s (map fst (pricesToShow filter_ st))).
  { intros filter_ Hne Hin. apply in_map_iff in Hin.
    destruct Hin as [[s' q'] [Hfst Hin]]. simpl in Hfst. subst s'.
    rewrite pricesToShow_filter in Hin. apply filter_In in Hin.
    destruct Hin as [_ Hshow]. simpl in Hshow.
    apply shows_spec in Hshow. destruct Hshow as [Hall|Hcat]; congruence. }
  split; [exact Hno|]. split; [apply Hno; discriminate|].
  split; [|reflexivity].
  unfold pricesToShow; simpl. now apply assoc_In.
Qed.

(** ** The alert registry and the session *)

(** A failed request is logged by [apiRequest] and thrown on; nothing else
    changes. *)
Lemma apiRequest_Throw {T : Type} (o : FetchOutcome T) (e : Exn) (w : World) :
  apiRequest_try o = Throw e ->
  apiRequest o w = (emit (ConsoleError "API Error:" (Some e)) w, Throw e).
Proof. intros Hfail. unfold apiRequest. now rewrite Hfail. Qed.

Lemma apiRequest_Return {T : Type} (o : FetchOutcome T) (v : T) (w : World) :
  apiRequest_try o = Return v -> apiRequest o w = (w, Return v).
Proof. intros Hok. unfold apiRequest. now rewrite Hok. Qed.

(** C2, as amended.  When the request behind a registry operation fails,
    the whole [state], the alert cache included, and the stored token are
    as before the call.  [createAlert], [toggleAlert] and [deleteAlert]
    throw the error of the request to their caller; [fetchAlerts] catches
    it, logs it and returns normally. *)
Theorem registry_failure_leaves_cache
  (w : World) (alertId : Z)
  (listing : FetchOutcome (list AlertRule)) (created toggled : FetchOutcome AlertRule)
  (deleted : FetchOutcome json) (el ec et ed : Exn)
  (Hl : apiRequest_try listing = Throw el)
  (Hc : apiRequest_try created = Throw ec)
  (Ht : apiRequest_try toggled = Throw et)
  (Hd : apiRequest_try deleted = Throw ed) :
  (state (fst (fetchAlerts listing w)) = state w
   /\ localStorage (fst (fetchAlerts listing w)) = localStorage w
   /\ snd (fetchAlerts listing w) = Return tt
   /\ trace (fst (fetchAlerts listing w))
      = (trace w ++ [ConsoleError "API Error:" (Some el);
                     ConsoleError "Failed to fetch alerts:" (Some el)])%list)
  /\ (state (fst (createAlert created w)) = state w
      /\ localStorage (fst (createAlert created w)) = localStorage w
      /\ snd (createAlert created w) = Throw ec)
  /\ (state (fst (toggleAlert alertId toggled w)) = state w
      /\ localStorage (fst (toggleAlert alertId toggled w)) = localStorage w
      /\ snd (toggleAlert alertId toggled w) = Throw et)
  /\ (state (fst (deleteAlert alertId deleted w)) = state w
      /\ localStorage (fst (deleteAlert alertId deleted w)) = localStorage w
      /\ snd (deleteAlert alertId deleted w) = Throw ed).
Proof.
  unfold fetchAlerts, createAlert, toggleAlert, deleteAlert.
  rewrite (apiRequest_Throw _ _ _ Hl), (apiRequest_Throw _ _ _ Hc),
    (apiRequest_Throw _ _ _ Ht), (apiRequest_Throw _ _ _ Hd).
  simpl. rewrite <- app_assoc. simpl. repeat split; reflexivity.
Qed.

(** A created rule is put in front of the cache. *)
Lemma createAlert_front (created : FetchOutcome AlertRule) (alert : AlertRule)
  (w : World) :
  apiRequest_try created = Return alert ->
  alerts (state (fst (createAlert created w))) = alert :: alerts (state w)
  /\ snd (createAlert created w) = Return alert.
Proof.
  intros Hok. unfold createAlert. rewrite (apiRequest_Return _ _ _ Hok).
  simpl. split; reflexivity.
Qed.

(** A deletion drops the rules with the identifier, and only those. *)
Lemma deleteAlert_filter (alertId : Z) (deleted : FetchOutcome json)
  (body : json) (w : World) :
  apiRequest_try deleted = Return body ->
  alerts (state (fst (deleteAlert alertId deleted w)))
  = filter (fun a => negb (Z.eqb (id a) alertId)) (alerts (state w))
  /\ snd (deleteAlert alertId deleted w) = Return tt.
Proof.
  intros Hok. unfold deleteAlert. rewrite (apiRequest_Return _ _ _ Hok).
  simpl. split; reflexivity.
Qed.

Lemma filter_other_ids (i : Z) (l : list AlertRule) :
  (forall a, In a l -> id a <> i) ->
  filter (fun a => negb (Z.eqb (id a) i)) l = l.
Proof.
  induction l as [|a rest IH]; simpl; intros Hfresh; [reflexivity|].
  assert (Ha : id a <> i) by (apply Hfresh; now left).
  apply Z.eqb_neq in Ha. rewrite Ha. simpl. f_equal.
  apply IH. intros b Hb. apply Hfresh. now right.
Qed.

(** C8.  On a registry with no rule of identifier [id alert], a successful
    create that returns [alert], which goes in front, followed by a
    successful delete of that identifier gives back the registry: the same
    rules in the same order, hence the same length. *)
Theorem create_then_delete_restores
  (w : World) (alert : AlertRule) (created : FetchOutcome AlertRule)
  (deleted : FetchOutcome json) (body : json)
  (Hcreated : apiRequest_try created = Return alert)
  (Hdeleted : apiRequest_try deleted = Return body)
  (Hfresh : forall a, In a (alerts (state w)) -> id a <> id alert) :
  let w1 := fst (createAlert created w) in
  let w2 := fst (deleteAlert (id alert) deleted w1) in
  alerts (state w1) = alert :: alerts (state w)
  /\ alerts (state w2) = alerts (state w)
  /\ List.length (alerts (state w2)) = List.length (alerts (state w)).
Proof.
  intros w1 w2.
  destruct (createAlert_front created alert w Hcreated) as [Hfront _].
  destruct (deleteAlert_filter (id alert) deleted body w1 Hdeleted) as [Hdel _].
  fold w1 in Hfront. fold w2 in Hdel.
  assert (Hback : alerts (state w2) = alerts (state w)).
  { rewrite Hdel, Hfront. simpl. rewrite Z.eqb_refl. simpl.
    now apply filter_other_ids. }
  split; [exact Hfront|]. split; [exact Hback|]. now rewrite Hback.
Qed.

(** [logout] leaves no session and no alerts, whatever the world. *)
Lemma logout_clears (w : World) :
  token (state (logout w)) = None
  /\ localStorage (logout w) = None
  /\ user (state (logout w)) = None
  /\ alerts (state (logout w)) = [].
Proof. unfold logout. simpl. repeat split; reflexivity. Qed.

(** C6.  When the profile request made after a stored token was put back
    fails, [fetchUserProfile] runs [logout]: the token is gone from [state]
    and from [localStorage], the profile is gone, the alert cache is empty
    and the session is anonymous.  At the end of the whole restore the
    session is still anonymous, and the cache is empty if the listing that
    follows, sent without a token, fails too. *)
Theorem profile_failure_forces_logout
  (w : World) (savedToken : string) (profile : FetchOutcome User)
  (listing : FetchOutcome (list AlertRule)) (e : Exn)
  (Hstored : localStorage w = Some savedToken)
  (Hnonempty : savedToken <> "")
  (Hfail : apiRequest_try profile = Throw e) :
  let w1 := fst (fetchUserProfile profile
                   (set_state (set_token (Some savedToken)) w)) in
  (token (state w1) = None
   /\ localStorage w1 = None
   /\ user (state w1) = None
   /\ alerts (state w1) = []
   /\ anonymous (state w1))
  /\ (anonymous (state (restore profile listing w))
      /\ localStorage (restore profile listing w) = None
      /\ forall e', apiRequest_try listing = Throw e' ->
                    alerts (state (restore profile listing w)) = []).
Proof.
  intros w1.
  assert (Hw1 : w1 = logout (emit (ConsoleError "API Error:" (Some e))
                               (set_state (set_token (Some savedToken)) w))).
  { unfold w1, fetchUserProfile. now rewrite (apiRequest_Throw _ _ _ Hfail). }
  assert (Hrestore : restore profile listing w = fst (fetchAlerts listing w1)).
  { unfold restore. rewrite Hstored.
    apply String.eqb_neq in Hnonempty. now rewrite Hnonempty. }
  split.
  - rewrite Hw1. unfold anonymous, logout. simpl. repeat split; reflexivity.
  - rewrite Hrestore, Hw1. unfold anonymous, fetchAlerts, apiRequest.
    destruct (apiRequest_try listing) as [l|e0] eqn:Hl; simpl.
    + repeat split; try reflexivity. intros e' [=].
    + repeat split; reflexivity.
Qed.

(** What [apiRequest] throws for a response that is not [ok]: the [detail]
    of the body when it is a non-empty string, the fallback when the body
    does not parse or carries no [detail]. *)
Lemma apiRequest_error_message (w : World) (T : Type) :
  (forall (d : string) fields,
      d <> "" -> assoc "detail" fields = Some (JStr d) ->
      snd (apiRequest (T := T) (ResponseNotOk (Some (JObj fields))) w)
      = Throw (Error d))
  /\ (forall fields,
        assoc "detail" fields = None ->
        snd (apiRequest (T := T) (ResponseNotOk (Some (JObj fields))) w)
        = Throw (Error "Request failed"))
  /\ snd (apiRequest (T := T) (ResponseNotOk None) w)
     = Throw (Error "Request failed").
Proof.
  unfold apiRequest, apiRequest_try, detail_or, get_own. simpl.
  split; [|split].
  - intros d fields Hd Hdetail. rewrite Hdetail. simpl.
    apply String.eqb_neq in Hd. now rewrite Hd.
  - intros fields Hdetail. now rewrite Hdetail.
  - reflexivity.
Qed.

(** What [login] throws for a response that is not [ok]: the [detail] of the
    body when it is a string, ["Login failed"] when the body does not
    parse. *)
Lemma login_error_message (w : World) (profile : FetchOutcome User)
  (listing : FetchOutcome (list AlertRule)) :
  (forall (d : string) fields,
      assoc "detail" fields = Some (JStr d) ->
      snd (login (ResponseNotOk (Some (JObj fields))) profile listing w)
      = Throw (Error d))
  /\ snd (login (ResponseNotOk None) profile listing w)
     = Throw (Error "Login failed").
Proof.
  unfold login, get_own. simpl. split; [|reflexivity].
  intros d fields Hdetail. now rewrite Hdetail.
Qed.

(** C7, at the failing input.  For a response that is not [ok] and whose
    body parses to an object without [detail], [apiRequest] throws the
    fallback message and [login] throws an [Error] whose message is empty;
    neither changes the state. *)
Theorem login_error_without_detail (w : World) (profile : FetchOutcome User)
  (listing : FetchOutcome (list AlertRule)) :
  login (ResponseNotOk (Some (JObj []))) profile listing w
  = (w, Throw (Error ""))
  /\ snd (apiRequest (T := json) (ResponseNotOk (Some (JObj []))) w)
     = Throw (Error "Request failed").
Proof. split; reflexivity. Qed.

(** ** The streaming connection *)

(** C9.  With the current socket open, [connectWebSocket] returns the world
    it was given: no socket is created, [state.ws], the connectivity flag
    and the price cache are the same, and nothing is traced. *)
Theorem connect_while_open_is_noop (w : World) (Hopen : ws_is_open w = true) :
  connectWebSocket w = w
  /\ sockets (connectWebSocket w) = sockets w
  /\ ws (state (connectWebSocket w)) = ws (state w)
  /\ isConnected (state (connectWebSocket w)) = isConnected (state w)
  /\ prices (state (connectWebSocket w)) = prices (state w).
Proof.
  assert (Hsame : connectWebSocket w = w).
  { unfold connectWebSocket. now rewrite Hopen. }
  rewrite Hsame. repeat split; reflexivity.
Qed.

Lemma onmessage_not_null (data : json) (w : World) :
  data <> JNull -> onmessage (Some data) w = onmessage_branches data w.
Proof. destruct data; simpl; congruence. Qed.

(** C4, as amended.  A frame that does not parse, or that has neither a
    recognised [type] nor a truthy [symbol], changes nothing of the state
    (the price cache and [state.ws] included), of the stored token, of the
    sockets or of the timers.  It is logged when handling it threw, that
    is, when it does not parse or is [null]; otherwise it is dropped
    silently. *)
Theorem unrecognised_frame_dropped (parsed : option json) (w : World)
  (Hshape : no_recognised_shape parsed = true) :
  let w' := onmessage parsed w in
  state w' = state w
  /\ localStorage w' = localStorage w
  /\ sockets w' = sockets w
  /\ timers w' = timers w
  /\ trace w' = (trace w ++ logged_for parsed)%list.
Proof.
  destruct parsed as [data|]; simpl; [|repeat split; reflexivity].
  assert (Hbody : onmessage_branches data w = w).
  { unfold no_recognised_shape in Hshape.
    apply andb_prop in Hshape. destruct Hshape as [Htypes Hsym].
    apply andb_prop in Htypes. destruct Htypes as [Hsnap Hbeat].
    apply negb_true_iff in Hsnap. apply negb_true_iff in Hbeat.
    unfold onmessage_branches. rewrite Hsnap, Hbeat.
    destruct (get_own data "symbol") as [sym|]; [|reflexivity].
    apply negb_true_iff in Hsym. now rewrite Hsym. }
  destruct data; try (rewrite Hbody, app_nil_r; repeat split; reflexivity).
  repeat split; reflexivity.
Qed.


(** Rendering the grid, caught or not, writes to the trace only. *)
Lemma caught_render (w : World) :
  only_trace w (catch_with (renderPriceGrid w) message_error)
  /\ only_trace w
       (catch_with (renderPriceGrid w)
          (fun _ => emit (ConsoleLog "Waiting for backend to start...")))
  /\ only_trace w (fst (renderPriceGrid w)).
Proof.
  unfold only_trace, renderPriceGrid.
  destruct (existsb _ _); simpl; repeat split.
Qed.

Ltac caught_render_rewrite :=
  repeat match goal with
  | |- context [catch_with (renderPriceGrid ?w0) message_error] =>
      let Hs := fresh "Hs" in let Hl := fresh "Hl" in
      let Hk := fresh "Hk" in let Ht := fresh "Ht" in
      destruct (proj1 (caught_render w0)) as (Hs & Hl & Hk & Ht);
      rewrite ?Hs, ?Hl, ?Hk, ?Ht; clear Hs Hl Hk Ht
  | |- context [catch_with (renderPriceGrid ?w0) ?h] =>
      let Hs := fresh "Hs" in let Hl := fresh "Hl" in
      let Hk := fresh "Hk" in let Ht := fresh "Ht" in
      destruct (proj1 (proj2 (caught_render w0))) as (Hs & Hl & Hk & Ht);
      rewrite ?Hs, ?Hl, ?Hk, ?Ht; clear Hs Hl Hk Ht
  | |- context [fst (renderPriceGrid ?w0)] =>
      let Hs := fresh "Hs" in let Hl := fresh "Hl" in
      let Hk := fresh "Hk" in let Ht := fresh "Ht" in
      destruct (proj2 (proj2 (caught_render w0))) as (Hs & Hl & Hk & Ht);
      rewrite ?Hs, ?Hl, ?Hk, ?Ht; clear Hs Hl Hk Ht
  end.

(** The profile request, whatever its outcome and whatever the profile,
    touches neither the connection nor the cache. *)
Lemma fetchUserProfile_frame (o : FetchOutcome User) (w : World) :
  sockets (fst (fetchUserProfile o w)) = sockets w
  /\ timers (fst (fetchUserProfile o w)) = timers w
  /\ ws (state (fst (fetchUserProfile o w))) = ws (state w)
  /\ isConnected (state (fst (fetchUserProfile o w))) = isConnected (state w)
  /\ prices (state (fst (fetchUserProfile o w))) = prices (state w).
Proof.
  unfold fetchUserProfile, apiRequest, updateUserUI.
  destruct (apiRequest_try o) as [u|e]; simpl; [|repeat split].
  destruct (String.eqb (email u) ""); repeat split.
Qed.

Lemma fetchAlerts_frame (o : FetchOutcome (list AlertRule)) (w : World) :
  sockets (fst (fetchAlerts o w)) = sockets w
  /\ timers (fst (fetchAlerts o w)) = timers w
  /\ ws (state (fst (fetchAlerts o w))) = ws (state w)
  /\ isConnected (state (fst (fetchAlerts o w))) = isConnected (state w)
  /\ prices (state (fst (fetchAlerts o w))) = prices (state w).
Proof.
  unfold fetchAlerts, apiRequest.
  destruct (apiRequest_try o); repeat split.
Qed.

Lemma login_frame (auth : FetchOutcome string) (profile : FetchOutcome User)
  (listing : FetchOutcome (list AlertRule)) (w : World) :
  sockets (fst (login auth profile listing w)) = sockets w
  /\ timers (fst (login auth profile listing w)) = timers w
  /\ ws (state (fst (login auth profile listing w))) = ws (state w)
  /\ isConnected (state (fst (login auth profile listing w)))
     = isConnected (state w)
  /\ prices (state (fst (login auth profile listing w))) = prices (state w).
Proof.
  unfold login.
  destruct auth as [|[tok|]|[body|]]; try (repeat split; fail).
  - cbn [fst].
    match goal with
    | |- context [fetchAlerts listing ?w1] =>
        destruct (fetchAlerts_frame listing w1) as (Hs & Ht & Hw & Hc & Hp);
        rewrite Hs, Ht, Hw, Hc, Hp
    end.
    match goal with
    | |- context [fetchUserProfile profile ?w1] =>
        destruct (fetchUserProfile_frame profile w1) as (Hs' & Ht' & Hw' & Hc' & Hp');
        rewrite Hs', Ht', Hw', Hc', Hp'
    end.
    repeat split.
  - destruct body; repeat split.
Qed.

(** A merge writes to [state.prices] only. *)
Lemma merge_entries_rest_world (entries : list (string * json)) (w : World) :
  localStorage (merge_entries entries w) = localStorage w
  /\ sockets (merge_entries entries w) = sockets w
  /\ timers (merge_entries entries w) = timers w.
Proof.
  unfold merge_entries. revert w.
  induction entries as [|e rest IH]; intros w; simpl; [repeat split|].
  destruct (IH (set_state
                  (fun s => set_prices
                              (prices_assign (fst e) (snd e) (prices s)) s) w))
    as (Hl & Hs & Ht).
  rewrite Hl, Hs, Ht. repeat split.
Qed.

Lemma merge_entries_rest_state (entries : list (string * json)) (w : World) :
  ws (state (merge_entries entries w)) = ws (state w)
  /\ isConnected (state (merge_entries entries w)) = isConnected (state w).
Proof.
  unfold merge_entries. revert w.
  induction entries as [|e rest IH]; intros w; simpl; [repeat split|].
  destruct (IH (set_state
                  (fun s => set_prices
                              (prices_assign (fst e) (snd e) (prices s)) s) w))
    as (Hw & Hc).
  rewrite Hw, Hc. repeat split.
Qed.

(** Every world reached from a well-formed cache has a well-formed cache:
    the hypothesis of the properties of the filtered view holds of every
    cache the handlers build. *)
Lemma merge_entries_wf (entries : list (string * json)) (w : World) :
  prices_wf (prices (state w)) ->
  prices_wf (prices (state (merge_entries entries w))).
Proof.
  unfold merge_entries. revert w.
  induction entries as [|e rest IH]; intros w Hwf; simpl; [exact Hwf|].
  apply IH. simpl. now apply prices_assign_wf.
Qed.

(** What a message does to the world: it merges some entries into the
    cache (those of a snapshot, the frame of a delta, none otherwise) and
    writes to the trace. *)
Lemma onmessage_effect (parsed : option json) (w : World) :
  exists entries,
    state (onmessage parsed w) = state (merge_entries entries w)
    /\ localStorage (onmessage parsed w) = localStorage w
    /\ sockets (onmessage parsed w) = sockets w
    /\ timers (onmessage parsed w) = timers w.
Proof.
  assert (Hbody : forall data, exists entries,
             state (onmessage_branches data w) = state (merge_entries entries w)
             /\ localStorage (onmessage_branches data w) = localStorage w
             /\ sockets (onmessage_branches data w) = sockets w
             /\ timers (onmessage_branches data w) = timers w).
  { intros data. unfold onmessage_branches.
    destruct (is_string (get_own data "type") "snapshot").
    - destruct (get_own data "prices") as [p|];
        [|exists []; repeat split].
      destruct p; try (exists []; repeat split; fail);
        match goal with
        | |- context [merge_entries ?l w] =>
            exists l; caught_render_rewrite;
            destruct (merge_entries_rest_world l w) as (Hl & Hs & Ht);
            rewrite Hl, Hs, Ht; repeat split
        end.
    - destruct (is_string (get_own data "type") "heartbeat");
        [exists []; repeat split|].
      destruct (get_own data "symbol") as [sym|]; [|exists []; repeat split].
      destruct (truthy sym); [|exists []; repeat split].
      destruct (to_string sym) as [key|]; [|exists []; repeat split].
      exists [(key, data)]. repeat split. }
  destruct parsed as [data|]; [|exists []; repeat split].
  destruct data; try apply Hbody. exists []. repeat split.
Qed.

Lemma onmessage_wf (parsed : option json) (w : World) :
  prices_wf (prices (state w)) ->
  prices_wf (prices (state (onmessage parsed w))).
Proof.
  intros Hwf. destruct (onmessage_effect parsed w) as (entries & Hst & _).
  rewrite Hst. now apply merge_entries_wf.
Qed.

(** What an action of the page does to the connection and to the cache:
    nothing to the first, and to the second a merge of the prices that came
    with the answer to the first price request, if that is the action. *)
Lemma perform_effect (a : Action) (w : World) :
  sockets (perform a w) = sockets w
  /\ timers (perform a w) = timers w
  /\ ws (state (perform a w)) = ws (state w)
  /\ isConnected (state (perform a w)) = isConnected (state w)
  /\ (prices (state (perform a w)) = prices (state w)
      \/ exists o entries,
           a = DoFetchInitialPrices (ResponseOk (Some o))
           /\ state (perform a w) = state (merge_entries entries w)).
Proof.
  destruct a as [auth profile listing| |o|alertId o|alertId o|f|m|o]; simpl.
  - destruct (login_frame auth profile listing w) as (Hs & Ht & Hw & Hc & Hp).
    repeat split; auto.
  - repeat split; auto.
  - unfold createAlert, apiRequest.
    destruct (apiRequest_try o); repeat split; auto.
  - unfold deleteAlert, apiRequest.
    destruct (apiRequest_try o); repeat split; auto.
  - unfold toggleAlert, apiRequest.
    destruct (apiRequest_try o); simpl; [|repeat split; auto].
    destruct (findIndex _ _); repeat split; auto.
  - unfold selectFilter. caught_render_rewrite. repeat split; auto.
  - unfold sendWebSocketMessage. destruct (ws_is_open w); [|repeat split; auto].
    destruct (ws (state w)) eqn:Hws; simpl; rewrite ?Hws; repeat split; auto.
  - unfold fetchInitialPrices.
    destruct o as [|[data|]|body]; try (repeat split; auto; fail).
    destruct data; try (repeat split; auto; fail);
      match goal with
      | |- context [merge_entries ?l w] =>
          caught_render_rewrite;
          destruct (merge_entries_rest_world l w) as (Hl & Hs & Ht);
          destruct (merge_entries_rest_state l w) as (Hw & Hc);
          rewrite Hs, Ht, Hw, Hc;
          split; [reflexivity|]; split; [reflexivity|];
          split; [reflexivity|]; split; [reflexivity|];
          right; eexists; exists l; split; reflexivity
      end.
Qed.

Lemma perform_wf (a : Action) (w : World) :
  prices_wf (prices (state w)) -> prices_wf (prices (state (perform a w))).
Proof.
  intros Hwf.
  destruct (perform_effect a w) as (_ & _ & _ & _ & [Hsame|(o & entries & _ & Hst)]).
  - now rewrite Hsame.
  - rewrite Hst. now apply merge_entries_wf.
Qed.

Lemma step_wf (ev : Event) (w : World) :
  prices_wf (prices (state w)) -> prices_wf (prices (state (step ev w))).
Proof.
  intros Hwf. destruct ev as [i|i parsed|i|i|n|a]; simpl.
  - destruct (nth_error (sockets w) i); exact Hwf.
  - destruct (nth_error (sockets w) i); [now apply onmessage_wf | exact Hwf].
  - destruct (nth_error (sockets w) i); exact Hwf.
  - destruct (nth_error (sockets w) i); exact Hwf.
  - destruct (nth_error (timers w) n) as [t|]; [|exact Hwf].
    destruct (callback t). simpl. unfold connectWebSocket.
    destruct (ws_is_open _); exact Hwf.
  - now apply perform_wf.
Qed.

Lemma run_wf (evs : list Event) (w : World) :
  prices_wf (prices (state w)) -> prices_wf (prices (state (run evs w))).
Proof.
  revert w. induction evs as [|ev rest IH]; intros w Hwf; simpl; [exact Hwf|].
  apply IH. now apply step_wf.
Qed.

(** ** Reconnection *)

(** Each run of [onclose] arms one more reconnect timer and touches no
    socket. *)
Lemma onclose_timers (w : World) :
  timers (onclose w) = (timers w ++ [reconnect_timer])%list
  /\ sockets (onclose w) = sockets w.
Proof. split; reflexivity. Qed.

Lemma merge_entries_frame (entries : list (string * json)) (w : World) :
  sockets (merge_entries entries w) = sockets w
  /\ timers (merge_entries entries w) = timers w
  /\ ws (state (merge_entries entries w)) = ws (state w).
Proof.
  unfold merge_entries. revert w.
  induction entries as [|e rest IH]; intros w; simpl; [repeat split|].
  destruct (IH (set_state
                  (fun s => set_prices
                              (prices_assign (fst e) (snd e) (prices s)) s) w))
    as (Hs & Ht & Hw).
  rewrite Hs, Ht, Hw. repeat split.
Qed.

(** A message creates or closes no socket and arms no timer. *)
Lemma onmessage_frame (parsed : option json) (w : World) :
  sockets (onmessage parsed w) = sockets w
  /\ timers (onmessage parsed w) = timers w
  /\ ws (state (onmessage parsed w)) = ws (state w).
Proof.
  destruct (onmessage_effect parsed w) as (entries & Hst & _ & Hs & Ht).
  rewrite Hst, Hs, Ht.
  destruct (merge_entries_frame entries w) as (_ & _ & Hw).
  now rewrite Hw.
Qed.

(** An action of the page touches no socket and no timer, and leaves
    [state.ws] alone. *)
Lemma perform_frame (a : Action) (w : World) :
  sockets (perform a w) = sockets w
  /\ timers (perform a w) = timers w
  /\ ws (state (perform a w)) = ws (state w).
Proof.
  destruct (perform_effect a w) as (Hs & Ht & Hw & _).
  now rewrite Hs, Ht, Hw.
Qed.

Lemma live_sockets_cons (r : ReadyState) (l : list ReadyState) :
  live_sockets (r :: l)
  = (if ReadyState_eqb r CLOSED then 0 else 1) + live_sockets l.
Proof. unfold live_sockets. simpl. now destruct (ReadyState_eqb r CLOSED). Qed.

Lemma live_sockets_app (l : list ReadyState) (r : ReadyState) :
  live_sockets (l ++ [r])
  = live_sockets l + (if ReadyState_eqb r CLOSED then 0 else 1).
Proof.
  unfold live_sockets. rewrite filter_app, length_app. simpl.
  now destruct (ReadyState_eqb r CLOSED).
Qed.

(** Re-labelling a socket that has not closed: the count of live sockets
    stays when the new state is not [CLOSED], and drops by one when it is. *)
Lemma live_sockets_set_nth (i : nat) (r r' : ReadyState) (l : list ReadyState) :
  nth_error l i = Some r -> ReadyState_eqb r CLOSED = false ->
  live_sockets (set_nth i r' l) + (if ReadyState_eqb r' CLOSED then 1 else 0)
  = live_sockets l.
Proof.
  revert i. induction l as [|x rest IH]; intros [|i]; simpl; try discriminate.
  - intros [= ->] Hlive. rewrite !live_sockets_cons, Hlive.
    destruct (ReadyState_eqb r' CLOSED); lia.
  - intros Hnth Hlive. rewrite !live_sockets_cons.
    specialize (IH i Hnth Hlive). lia.
Qed.

Lemma live_sockets_zero (i : nat) (r : ReadyState) (l : list ReadyState) :
  live_sockets l = 0 -> nth_error l i = Some r -> r = CLOSED.
Proof.
  revert i. induction l as [|x rest IH]; intros [|i]; simpl; try discriminate.
  - rewrite live_sockets_cons. intros Hzero [= ->].
    destruct r; simpl in Hzero; try discriminate. reflexivity.
  - rewrite live_sockets_cons. intros Hzero Hnth.
    apply (IH i); [lia | exact Hnth].
Qed.

Lemma length_remove_nth {A : Type} (n : nat) (l : list A) :
  n < List.length l -> List.length (remove_nth n l) + 1 = List.length l.
Proof.
  revert n. induction l as [|x rest IH]; intros [|n]; simpl; try lia.
  intros Hlt. specialize (IH n). lia.
Qed.

Lemma Forall_remove_nth {A : Type} (P : A -> Prop) (n : nat) (l : list A) :
  Forall P l -> Forall P (remove_nth n l).
Proof.
  revert n. induction l as [|x rest IH]; intros [|n] Hall; simpl; auto;
    inversion Hall; subst; auto.
Qed.

Lemma connectWebSocket_first (w : World) :
  sockets w = [] -> timers w = [] -> one_attempt (connectWebSocket w).
Proof.
  intros Hs Ht. unfold one_attempt, connectWebSocket, ws_is_open.
  rewrite Hs. destruct (ws (state w)) as [[|i]|]; simpl; rewrite Ht;
    split; try constructor; reflexivity.
Qed.

Lemma step_one_attempt (ev : Event) (w : World) :
  permitted ev w = true -> one_attempt w -> one_attempt (step ev w).
Proof.
  unfold one_attempt. intros Hperm [Hone Hall].
  destruct ev as [i|i parsed|i|i|n|a]; simpl in *;
    [| | | | |destruct (perform_frame a w) as (Hs & Ht & _);
              rewrite Hs, Ht; now split].
  - destruct (nth_error (sockets w) i) as [r|] eqn:Hnth; [|discriminate].
    simpl. split; [|exact Hall].
    pose proof (live_sockets_set_nth i r OPEN (sockets w) Hnth) as Hlive.
    destruct r; try discriminate. simpl in Hlive.
    specialize (Hlive eq_refl). lia.
  - destruct (nth_error (sockets w) i); [|discriminate].
    destruct (onmessage_frame parsed w) as (Hs & Ht & _).
    rewrite Hs, Ht. now split.
  - destruct (nth_error (sockets w) i); [|discriminate]. now split.
  - destruct (nth_error (sockets w) i) as [r|] eqn:Hnth; [|discriminate].
    apply negb_true_iff in Hperm.
    pose proof (live_sockets_set_nth i r CLOSED (sockets w) Hnth Hperm) as Hlive.
    simpl in *. rewrite length_app. simpl. split; [lia|].
    apply Forall_app. split; [exact Hall|]. now constructor.
  - apply Nat.ltb_lt in Hperm.
    destruct (nth_error (timers w) n) as [t|] eqn:Hnth.
    + pose proof (length_remove_nth n (timers w) Hperm) as Hlen.
      assert (Hdead : live_sockets (sockets w) = 0) by lia.
      destruct (callback t). simpl.
      unfold connectWebSocket, ws_is_open. simpl.
      assert (Hshut : match ws (state w) with
                      | Some i => match nth_error (sockets w) i with
                                  | Some r => ReadyState_eqb r OPEN
                                  | None => false
                                  end
                      | None => false
                      end = false).
      { destruct (ws (state w)) as [i|]; [|reflexivity].
        destruct (nth_error (sockets w) i) as [r|] eqn:Hi; [|reflexivity].
        now rewrite (live_sockets_zero i r (sockets w) Hdead Hi). }
      rewrite Hshut. simpl. rewrite live_sockets_app. simpl.
      split; [lia|]. now apply Forall_remove_nth.
    + apply nth_error_None in Hnth. lia.
Qed.

Lemma run_one_attempt (evs : list Event) (w : World) :
  conforming evs w = true -> one_attempt w -> one_attempt (run evs w).
Proof.
  revert w. induction evs as [|ev rest IH]; intros w Hconf Hinv; simpl.
  - exact Hinv.
  - simpl in Hconf. apply andb_prop in Hconf. destruct Hconf as [Hperm Hrest].
    apply IH; [exact Hrest|]. now apply step_one_attempt.
Qed.

(** C1.  Along every run in which the browser keeps its contract (a socket
    closes once), whatever the page does in between, at most one reconnect
    timer is pending at any time, and it is the timer of 3000 ms that calls
    [connectWebSocket].  A close signal arms exactly that one timer.  While
    it is pending no socket is left that could deliver a further close
    signal, so none is added before it fires. *)
Theorem at_most_one_reconnect_timer (w0 : World) (evs : list Event)
  (Hsockets : sockets w0 = []) (Htimers : timers w0 = [])
  (Hconf : conforming evs (connectWebSocket w0) = true) :
  let w := run evs (connectWebSocket w0) in
  List.length (timers w) <= 1
  /\ Forall (fun t => delay t = 3000%Z /\ callback t = CallConnectWebSocket)
       (timers w)
  /\ (forall i, permitted (SocketClose i) w = true ->
        timers (step (SocketClose i) w) = [reconnect_timer])
  /\ (forall i, timers w <> [] -> permitted (SocketClose i) w = false).
Proof.
  intros w.
  destruct (run_one_attempt evs (connectWebSocket w0) Hconf
              (connectWebSocket_first w0 Hsockets Htimers)) as [Hone Hall].
  fold w in Hone, Hall.
  split; [lia|]. split; [|split].
  - eapply Forall_impl; [|exact Hall]. intros t ->. split; reflexivity.
  - intros i Hperm. simpl in *.
    destruct (nth_error (sockets w) i) as [r|] eqn:Hnth; [|discriminate].
    apply negb_true_iff in Hperm.
    assert (Hlive : live_sockets (sockets w) <> 0).
    { intros Hzero. rewrite (live_sockets_zero i r _ Hzero Hnth) in Hperm.
      discriminate. }
    simpl. destruct (timers w) as [|t rest]; [reflexivity|].
    simpl in Hone. lia.
  - intros i Hpending. simpl.
    destruct (nth_error (sockets w) i) as [r|] eqn:Hnth; [|reflexivity].
    assert (Hzero : live_sockets (sockets w) = 0).
    { destruct (timers w); [congruence | simpl in Hone; lia]. }
    now rewrite (live_sockets_zero i r _ Hzero Hnth).
Qed.

(** ** The price cache as a map *)

Lemma assoc_app_fresh {A : Type} (k k0 : string) (v : A) (l : list (string * A)) :
  assoc k0 (l ++ [(k, v)])
  = match assoc k0 l with
    | Some x => Some x
    | None => if String.eqb k0 k then Some v else None
    end.
Proof.
  induction l as [|[k' v'] rest IH]; simpl; [reflexivity|].
  destruct (String.eqb k0 k'); [reflexivity | exact IH].
Qed.

Lemma assoc_insert_index {A : Type} (n : N) (k k0 : string) (v : A)
  (l : list (string * A)) :
  assoc k l = None ->
  assoc k0 (insert_index n k v l)
  = if String.eqb k0 k then Some v else assoc k0 l.
Proof.
  induction l as [|[k' v'] rest IH]; simpl; [reflexivity|].
  destruct (String.eqb k k') eqn:Ekk'; [discriminate|]. intros Hrest.
  destruct (array_index k') as [m|]; [|reflexivity].
  destruct (m <? n)%N; [|reflexivity].
  simpl. rewrite (IH Hrest).
  destruct (String.eqb k0 k') eqn:E0; [|reflexivity].
  apply String.eqb_eq in E0. subst k0.
  rewrite String.eqb_sym in Ekk'. now rewrite Ekk'.
Qed.

Lemma assoc_define_own {A : Type} (k k0 : string) (v : A) (l : list (string * A)) :
  assoc k0 (define_own k v l) = if String.eqb k0 k then Some v else assoc k0 l.
Proof.
  unfold define_own. destruct (has_key k l) eqn:Hk.
  - destruct (String.eqb k0 k) eqn:E.
    + apply String.eqb_eq in E. subst k0. now apply assoc_replace_same.
    + apply String.eqb_neq in E. now apply assoc_replace_other.
  - assert (Hnone : assoc k l = None).
    { unfold has_key in Hk. destruct (assoc k l); [discriminate | reflexivity]. }
    destruct (array_index k) as [n|].
    + now apply assoc_insert_index.
    + rewrite assoc_app_fresh.
      destruct (String.eqb k0 k) eqn:E; [|now destruct (assoc k0 l)].
      apply String.eqb_eq in E. subst k0. now rewrite Hnone.
Qed.

(** An assignment leaves the entries of the other symbols as they are. *)
Lemma prices_assign_other (k k0 : string) (v : json) (st : PriceStore) :
  k0 <> k -> prices_get (prices_assign k v st) k0 = prices_get st k0.
Proof.
  intros Hne. unfold prices_assign, prices_get.
  destruct (negb (has_key k (own st)) && String.eqb k "__proto__"
            && reaches_proto_accessor (proto st)); simpl; [reflexivity|].
  rewrite assoc_define_own. apply String.eqb_neq in Hne. now rewrite Hne.
Qed.

Lemma prices_assign_same (k : string) (v : json) (st : PriceStore) :
  k <> "__proto__" -> prices_get (prices_assign k v st) k = Some v.
Proof.
  intros Hne. unfold prices_assign, prices_get.
  apply String.eqb_neq in Hne. rewrite Hne, andb_false_r. simpl.
  rewrite assoc_define_own. now rewrite String.eqb_refl.
Qed.

(** An assignment removes no entry. *)
Lemma prices_assign_keeps (k k0 : string) (v : json) (st : PriceStore) :
  has_key k0 (own st) = true ->
  has_key k0 (own (prices_assign k v st)) = true.
Proof.
  intros Hheld. unfold prices_assign.
  destruct (negb (has_key k (own st)) && String.eqb k "__proto__"
            && reaches_proto_accessor (proto st)); simpl; [exact Hheld|].
  unfold has_key in *. rewrite assoc_define_own.
  destruct (String.eqb k0 k); [reflexivity | exact Hheld].
Qed.

(** X1.  Writing a quote under a symbol other than [__proto__] and reading
    the symbol back gives that quote, whether the symbol is new, held, or
    an array index; every other symbol reads as before, and the prototype
    of the cache is untouched. *)
Theorem prices_assign_then_get (k : string) (v : json) (st : PriceStore)
  (Hordinary : k <> "__proto__") :
  prices_get (prices_assign k v st) k = Some v
  /\ (forall k0, k0 <> k ->
        prices_get (prices_assign k v st) k0 = prices_get st k0)
  /\ proto (prices_assign k v st) = proto st.
Proof.
  split; [now apply prices_assign_same|].
  split; [intros k0 Hne; now apply prices_assign_other|].
  unfold prices_assign. apply String.eqb_neq in Hordinary.
  now rewrite Hordinary, andb_false_r.
Qed.

Lemma merge_entries_cons (e : string * json) (rest : list (string * json))
  (w : World) :
  merge_entries (e :: rest) w
  = merge_entries rest
      (set_state
         (fun s => set_prices (prices_assign (fst e) (snd e) (prices s)) s) w).
Proof. reflexivity. Qed.

Lemma merge_entries_other (entries : list (string * json)) (k0 : string)
  (w : World) :
  ~ In k0 (map fst entries) ->
  prices_get (prices (state (merge_entries entries w))) k0
  = prices_get (prices (state w)) k0.
Proof.
  revert w. induction entries as [|[k v] rest IH]; intros w Hout;
    [reflexivity|].
  rewrite merge_entries_cons, IH.
  - simpl. apply prices_assign_other. intros ->. apply Hout. now left.
  - intros Hin. apply Hout. now right.
Qed.

Lemma merge_entries_get (entries : list (string * json)) (k : string)
  (q : json) (w : World) :
  NoDup (map fst entries) -> ~ In "__proto__" (map fst entries) ->
  In (k, q) entries ->
  prices_get (prices (state (merge_entries entries w))) k = Some q.
Proof.
  revert w. induction entries as [|[k' v'] rest IH]; intros w Hnd Hproto Hin;
    [destruct Hin|].
  rewrite merge_entries_cons. inversion Hnd as [|? ? Hfresh Hrest]; subst.
  destruct Hin as [Heq|Hin].
  - injection Heq as -> ->. rewrite merge_entries_other; [|exact Hfresh].
    simpl. apply prices_assign_same. intros ->. apply Hproto. now left.
  - apply IH; [exact Hrest | | exact Hin].
    intros Hp. apply Hproto. now right.
Qed.

Lemma merge_entries_keeps (entries : list (string * json)) (k0 : string)
  (w : World) :
  has_key k0 (own (prices (state w))) = true ->
  has_key k0 (own (prices (state (merge_entries entries w)))) = true.
Proof.
  revert w. induction entries as [|[k v] rest IH]; intros w Hheld;
    [exact Hheld|].
  rewrite merge_entries_cons. apply IH. simpl. now apply prices_assign_keeps.
Qed.

Lemma merge_entries_rest (entries : list (string * json)) (w : World) :
  user (state (merge_entries entries w)) = user (state w)
  /\ token (state (merge_entries entries w)) = token (state w)
  /\ alerts (state (merge_entries entries w)) = alerts (state w)
  /\ activeFilter (state (merge_entries entries w)) = activeFilter (state w)
  /\ isConnected (state (merge_entries entries w)) = isConnected (state w)
  /\ trace (merge_entries entries w) = trace w
  /\ localStorage (merge_entries entries w) = localStorage w.
Proof.
  revert w. induction entries as [|e rest IH]; intros w; [repeat split|].
  rewrite merge_entries_cons.
  destruct (IH (set_state
                  (fun s => set_prices
                              (prices_assign (fst e) (snd e) (prices s)) s) w))
    as (Hu & Ht & Ha & Hf & Hc & Htr & Hl).
  rewrite Hu, Ht, Ha, Hf, Hc, Htr, Hl. repeat split.
Qed.

(** X2.  A snapshot frame whose [prices] object lists each symbol once and
    has no [__proto__] key: afterwards the cache holds, for every symbol of
    the snapshot, exactly the quote the snapshot gives it, and a symbol the
    snapshot does not mention keeps its entry.  Then the grid is rendered
    once, from the new cache, if every card of the selection can be built;
    if building one throws, the cache stays as merged, no grid is rendered
    and the handler logs the type error. *)
Theorem snapshot_sets_every_quote (data p : json) (w : World)
  (Htype : is_string (get_own data "type") "snapshot" = true)
  (Hprices : get_own data "prices" = Some p)
  (Hnonnull : p <> JNull)
  (Hkeys : NoDup (map fst (Object_entries p)))
  (Hordinary : ~ In "__proto__" (map fst (Object_entries p))) :
  let w' := onmessage (Some data) w in
  let shown := pricesToShow (activeFilter (state w)) (prices (state w')) in
  (forall k q, In (k, q) (Object_entries p) ->
     prices_get (prices (state w')) k = Some q)
  /\ (forall k, ~ In k (map fst (Object_entries p)) ->
        prices_get (prices (state w')) k = prices_get (prices (state w)) k)
  /\ trace w'
     = (trace w
        ++ [if existsb (fun entry =>
                          createPriceCardHTML_throws (fst entry) (snd entry))
                 shown
            then ConsoleError "WebSocket message error:" (Some TypeError)
            else RenderPriceGrid shown])%list.
Proof.
  intros w' shown.
  assert (Hw' : w' = catch_with
                       (renderPriceGrid (merge_entries (Object_entries p) w))
                       message_error).
  { unfold w'. rewrite onmessage_not_null.
    - unfold onmessage_branches. rewrite Htype, Hprices.
      destruct p; try reflexivity. congruence.
    - intros ->. discriminate Hprices. }
  destruct (merge_entries_rest (Object_entries p) w)
    as (_ & _ & _ & Hf & _ & Htr & _).
  assert (Hst : state w' = state (merge_entries (Object_entries p) w)).
  { rewrite Hw'. apply caught_render. }
  subst shown. rewrite Hst.
  split; [|split].
  - intros k q Hin. now apply merge_entries_get.
  - intros k Hout. now apply merge_entries_other.
  - rewrite Hw'. unfold renderPriceGrid. rewrite Hf.
    destruct (existsb _ _); simpl; now rewrite Htr.
Qed.

(** X3.  A snapshot frame without [prices], or with [prices] null, is
    caught as a type error: it is logged, the state is as before and the
    grid is not rendered, whatever else the frame carries. *)
Theorem snapshot_without_prices_logged (data : json) (w : World)
  (Htype : is_string (get_own data "type") "snapshot" = true)
  (Hprices : get_own data "prices" = None \/ get_own data "prices" = Some JNull) :
  onmessage (Some data) w
  = emit (ConsoleError "WebSocket message error:" (Some TypeError)) w
  /\ state (onmessage (Some data) w) = state w.
Proof.
  assert (Hsame : onmessage (Some data) w
                  = emit (ConsoleError "WebSocket message error:" (Some TypeError)) w).
  { rewrite onmessage_not_null.
    - unfold onmessage_branches. rewrite Htype.
      destruct Hprices as [-> | ->]; reflexivity.
    - intros ->. discriminate Htype. }
  rewrite Hsame. split; reflexivity.
Qed.


(** An index key starts with a digit; the property names the handlers read
    do not. *)
Lemma N_to_string_not_symbol (n : N) : String.eqb "symbol" (N_to_string n) = false.
Proof.
  apply String.eqb_neq. intros Hn. unfold N_to_string in Hn.
  destruct (N.to_uint n); simpl in Hn; discriminate.
Qed.

Lemma string_entries_no_symbol (s : string) (i : N) :
  assoc "symbol" (string_entries s i) = None.
Proof.
  revert i. induction s as [|c s IH]; intros i; [reflexivity|].
  cbn [string_entries assoc]. now rewrite N_to_string_not_symbol.
Qed.

Lemma array_entries_no_symbol (l : list json) (i : N) :
  assoc "symbol" (array_entries l i) = None.
Proof.
  revert i. induction l as [|x l IH]; intros i; [reflexivity|].
  cbn [array_entries assoc]. now rewrite N_to_string_not_symbol.
Qed.


(** ** Invariants of the price cache along a run *)

Lemma array_index_key (k : string) (n : N) :
  array_index k = Some n -> N_to_string n = k.
Proof.
  unfold array_index. destruct k as [|c k]; [discriminate|].
  destruct (digits_value (String c k) 0) as [m|]; [|discriminate].
  destruct (String.eqb (N_to_string m) (String c k)) eqn:E; simpl;
    [|discriminate].
  destruct (m <? 4294967295)%N; [|discriminate].
  intros [= <-]. now apply String.eqb_eq.
Qed.

Lemma keys_ordered_app_other (ks : list string) (k : string) :
  array_index k = None -> keys_ordered ks -> keys_ordered (ks ++ [k]).
Proof.
  intros Hk. induction ks as [|k' rest IH]; simpl.
  - intros _. rewrite Hk. split; [constructor | exact I].
  - intros [Hhead Hrest]. split; [|now apply IH].
    destruct (array_index k') as [n|].
    + apply Forall_app. split; [exact Hhead|].
      constructor; [now rewrite Hk | constructor].
    + apply Forall_app. split; [exact Hhead|].
      constructor; [exact Hk | constructor].
Qed.

Lemma insert_index_keys_In {A : Type} (n : N) (k : string) (v : A)
  (l : list (string * A)) (k0 : string) :
  In k0 (map fst (insert_index n k v l)) -> k0 = k \/ In k0 (map fst l).
Proof.
  intros Hin.
  apply (Permutation_in k0 (Permutation_map fst (insert_index_Permutation n k v l)))
    in Hin.
  destruct Hin as [<-|Hin]; [now left | now right].
Qed.

Lemma keys_ordered_insert_index {A : Type} (n : N) (k : string) (v : A)
  (l : list (string * A)) :
  array_index k = Some n -> ~ In k (map fst l) ->
  keys_ordered (map fst l) -> keys_ordered (map fst (insert_index n k v l)).
Proof.
  intros Hk. induction l as [|[k' v'] rest IH]; simpl; intros Hfresh Hord.
  - rewrite Hk. split; [constructor | exact I].
  - destruct Hord as [Hhead Hrest].
    assert (Hne : k' <> k) by (intros ->; apply Hfresh; now left).
    assert (Hfresh' : ~ In k (map fst rest)) by (intros Hin; apply Hfresh; now right).
    destruct (array_index k') as [m|] eqn:Hk'.
    + assert (Hmn : m <> n).
      { intros ->. apply Hne.
        now rewrite <- (array_index_key k' n Hk'), <- (array_index_key k n Hk). }
      destruct (m <? n)%N eqn:Hlt; simpl; rewrite ?Hk', ?Hk.
      * apply N.ltb_lt in Hlt. split; [|now apply IH].
        apply Forall_forall. intros k0 Hin.
        apply insert_index_keys_In in Hin. destruct Hin as [->|Hin].
        -- now rewrite Hk.
        -- rewrite Forall_forall in Hhead. now apply Hhead.
      * apply N.ltb_ge in Hlt. split; [|split; [exact Hhead | exact Hrest]].
        constructor; [rewrite Hk'; lia|].
        eapply Forall_impl; [|exact Hhead]. intros k0. simpl.
        destruct (array_index k0); [lia | trivial].
    + simpl. rewrite Hk, Hk'. split; [|split; [exact Hhead | exact Hrest]].
      constructor; [now rewrite Hk'|].
      eapply Forall_impl; [|exact Hhead]. intros k0 ->. exact I.
Qed.

Lemma keys_ordered_define_own {A : Type} (k : string) (v : A)
  (l : list (string * A)) :
  keys_ordered (map fst l) -> keys_ordered (map fst (define_own k v l)).
Proof.
  intros Hord. unfold define_own, has_key.
  destruct (assoc k l) eqn:Hk.
  - now rewrite replace_value_keys.
  - apply assoc_None_not_key in Hk.
    destruct (array_index k) as [n|] eqn:Hix.
    + now apply keys_ordered_insert_index.
    + rewrite map_app. simpl. now apply keys_ordered_app_other.
Qed.

Lemma cache_kept_refl (w w' : World) :
  prices (state w') = prices (state w) -> cache_kept w w'.
Proof. intros Heq. unfold cache_kept. rewrite Heq. repeat split; auto. Qed.

Lemma cache_kept_trans (w1 w2 w3 : World) :
  cache_kept w1 w2 -> cache_kept w2 w3 -> cache_kept w1 w3.
Proof.
  intros (Ha & Hb & Hc) (Ha' & Hb' & Hc'). repeat split; auto.
Qed.

Lemma prices_assign_ordered (k : string) (v : json) (st : PriceStore) :
  keys_ordered (map fst (own st)) ->
  keys_ordered (map fst (own (prices_assign k v st))).
Proof.
  intros Hord. unfold prices_assign.
  destruct (negb (has_key k (own st)) && String.eqb k "__proto__"
            && reaches_proto_accessor (proto st)); simpl; [exact Hord|].
  now apply keys_ordered_define_own.
Qed.

Lemma merge_entries_kept (entries : list (string * json)) (w : World) :
  cache_kept w (merge_entries entries w).
Proof.
  revert w. induction entries as [|e rest IH]; intros w.
  - now apply cache_kept_refl.
  - rewrite merge_entries_cons. eapply cache_kept_trans; [|apply IH].
    unfold cache_kept. simpl. split; [|split].
    + apply prices_assign_wf.
    + apply prices_assign_ordered.
    + intros k. apply prices_assign_keeps.
Qed.

Lemma onmessage_kept (parsed : option json) (w : World) :
  cache_kept w (onmessage parsed w).
Proof.
  destruct (onmessage_effect parsed w) as (entries & Hst & _).
  pose proof (merge_entries_kept entries w) as Hk.
  unfold cache_kept in *. rewrite Hst. exact Hk.
Qed.

(** What a page action does to the cache: nothing, except for the answer to
    the first price request, which is merged. *)
Lemma perform_prices (a : Action) (w : World) :
  prices (state (perform a w)) = prices (state w)
  \/ exists o entries,
       a = DoFetchInitialPrices (ResponseOk (Some o))
       /\ prices (state (perform a w))
          = prices (state (merge_entries entries w)).
Proof.
  destruct (perform_effect a w)
    as (_ & _ & _ & _ & [Hsame|(o & entries & Ha & Hst)]).
  - now left.
  - right. exists o, entries. split; [exact Ha | now rewrite Hst].
Qed.

Lemma step_kept (ev : Event) (w : World) : cache_kept w (step ev w).
Proof.
  destruct ev as [i|i parsed|i|i|n|a]; simpl.
  - destruct (nth_error (sockets w) i); now apply cache_kept_refl.
  - destruct (nth_error (sockets w) i);
      [apply onmessage_kept | now apply cache_kept_refl].
  - destruct (nth_error (sockets w) i); now apply cache_kept_refl.
  - destruct (nth_error (sockets w) i); now apply cache_kept_refl.
  - destruct (nth_error (timers w) n) as [t|]; [|now apply cache_kept_refl].
    destruct (callback t). simpl. unfold connectWebSocket.
    destruct (ws_is_open _); now apply cache_kept_refl.
  - destruct (perform_prices a w) as [Hsame|(o & entries & _ & Hmerge)].
    + now apply cache_kept_refl.
    + pose proof (merge_entries_kept entries w) as Hk.
      unfold cache_kept in *. rewrite Hmerge. exact Hk.
Qed.

Lemma run_kept (evs : list Event) (w : World) : cache_kept w (run evs w).
Proof.
  revert w. induction evs as [|ev rest IH]; intros w; simpl.
  - now apply cache_kept_refl.
  - eapply cache_kept_trans; [apply step_kept | apply IH].
Qed.

(** X6.  Whatever tasks run after the page has started, in whatever order,
    the price cache lists a symbol at most once, and [Object.entries]
    yields its entries with the array-index symbols first, in ascending
    numeric order, before all other symbols. *)
Theorem cache_well_formed_along_run (stored : option string)
  (evs : list Event) :
  let st := prices (state (run evs (started stored))) in
  prices_wf st /\ keys_ordered (map fst (prices_entries st)).
Proof.
  destruct (run_kept evs (started stored)) as (Hwf & Hord & _).
  split.
  - apply Hwf. apply empty_prices_wf.
  - apply Hord. exact I.
Qed.

(** X7.  No task removes an entry of the price cache: a symbol that holds
    a quote holds one, possibly newer, after any further run. *)
Theorem cache_never_forgets (w : World) (evs : list Event) (k : string)
  (q : json) (Hheld : prices_get (prices (state w)) k = Some q) :
  exists q', prices_get (prices (state (run evs w))) k = Some q'.
Proof.
  destruct (run_kept evs w) as (_ & _ & Hkeep).
  specialize (Hkeep k). unfold has_key in Hkeep. unfold prices_get in *.
  rewrite Hheld in Hkeep. specialize (Hkeep eq_refl).
  destruct (assoc k (own (prices (state (run evs w))))) as [q'|];
    [now exists q' | discriminate].
Qed.

(** X8.  Only a task that carries prices writes to the cache: socket
    opens, closes and errors, timers, heartbeats (also one that carries a
    symbol and a price), frames without a recognised shape, and every action
    of the page except the answer to the first price request leave it
    exactly as it was. *)
Theorem only_price_tasks_write_cache (ev : Event) (w : World)
  (Hother : carries_prices ev = false) :
  prices (state (step ev w)) = prices (state w).
Proof.
  destruct ev as [i|i parsed|i|i|n|a]; simpl in *.
  - destruct (nth_error (sockets w) i); reflexivity.
  - destruct (nth_error (sockets w) i); [|reflexivity].
    destruct parsed as [data|]; [|reflexivity].
    apply orb_false_iff in Hother. destruct Hother as [Hsnap Hsym].
    destruct data; try reflexivity; simpl; unfold onmessage_branches;
      rewrite Hsnap;
      match goal with
      | |- context [is_string ?x "heartbeat"] =>
          destruct (is_string x "heartbeat"); [reflexivity|]
      end;
      match goal with
      | |- context [get_own ?d "symbol"] =>
          destruct (get_own d "symbol") as [sym|]; [|reflexivity]
      end;
      simpl in Hsym; now rewrite Hsym.
  - destruct (nth_error (sockets w) i); reflexivity.
  - destruct (nth_error (sockets w) i); reflexivity.
  - destruct (nth_error (timers w) n) as [t|]; [|reflexivity].
    destruct (callback t). simpl. unfold connectWebSocket.
    destruct (ws_is_open _); reflexivity.
  - destruct (perform_prices a w) as [Hsame|(o & entries & -> & _)].
    + exact Hsame.
    + discriminate Hother.
Qed.

(** X9.  The first price request and a snapshot frame fill the cache the
    same way: when the answer carries a truthy [prices], the state after
    [fetchInitialPrices] is the state after a snapshot frame with those
    prices, and so is the whole world when the grid can be rendered.  When
    building a card throws, no grid is rendered by either, and they differ
    in the log: the request prints its waiting message to the console, the
    frame logs the error.  They differ on a missing [prices] as well: the
    request merges nothing and renders, where the frame is logged as an
    error. *)
Theorem initial_prices_like_snapshot (data p : json) (w : World)
  (Hdata : data <> JNull) :
  (get_own data "prices" = Some p -> truthy p = true ->
   forall frame,
     is_string (get_own frame "type") "snapshot" = true ->
     get_own frame "prices" = Some p ->
     let merged := merge_entries (Object_entries p) w in
     state (fetchInitialPrices (ResponseOk (Some data)) w)
     = state (onmessage (Some frame) w)
     /\ (forall w1, renderPriceGrid merged = (w1, Return tt) ->
           fetchInitialPrices (ResponseOk (Some data)) w = w1
           /\ onmessage (Some frame) w = w1
           /\ w1 = emit (RenderPriceGrid
                           (pricesToShow (activeFilter (state w))
                              (prices (state merged)))) merged)
     /\ (forall w1 e, renderPriceGrid merged = (w1, Throw e) ->
           fetchInitialPrices (ResponseOk (Some data)) w
           = emit (ConsoleLog "Waiting for backend to start...") merged
           /\ onmessage (Some frame) w
              = emit (ConsoleError "WebSocket message error:" (Some e)) merged))
  /\ (get_own data "prices" = None ->
      fetchInitialPrices (ResponseOk (Some data)) w
      = catch_with (renderPriceGrid w)
          (fun _ => emit (ConsoleLog "Waiting for backend to start..."))).
Proof.
  split.
  - intros Hp Htruthy frame Htype Hfp merged.
    assert (Hl : fetchInitialPrices (ResponseOk (Some data)) w
                 = catch_with (renderPriceGrid merged)
                     (fun _ => emit (ConsoleLog "Waiting for backend to start..."))).
    { unfold fetchInitialPrices.
      destruct data; try congruence; rewrite Hp, Htruthy; reflexivity. }
    assert (Hr : onmessage (Some frame) w
                 = catch_with (renderPriceGrid merged) message_error).
    { rewrite onmessage_not_null.
      - unfold onmessage_branches. rewrite Htype, Hfp.
        destruct p; try reflexivity. discriminate Htruthy.
      - intros ->. discriminate Htype. }
    rewrite Hl, Hr.
    destruct (merge_entries_rest (Object_entries p) w)
      as (_ & _ & _ & Hf & _).
    fold merged in Hf.
    split; [|split].
    + destruct (caught_render merged) as ((Ha & _) & (Hb & _) & _).
      now rewrite Ha, Hb.
    + intros w1 Hret. rewrite Hret. simpl. split; [reflexivity|].
      split; [reflexivity|].
      unfold renderPriceGrid in Hret. rewrite Hf in Hret.
      destruct (existsb _ _); [discriminate|]. now injection Hret as <-.
    + intros w1 e Hthrow. rewrite Hthrow. simpl.
      unfold renderPriceGrid in Hthrow.
      destruct (existsb _ _); [|discriminate].
      injection Hthrow as <- <-. split; reflexivity.
  - intros Hnone. unfold fetchInitialPrices.
    destruct data; try congruence; rewrite Hnone; reflexivity.
Qed.

(** ** The connection along a run *)

Lemma connectWebSocket_not_open (w : World) :
  ws_is_open w = false ->
  connectWebSocket w
  = set_state (set_ws (Some (List.length (sockets w))))
      (set_sockets (sockets w ++ [CONNECTING]) w).
Proof. intros Hshut. unfold connectWebSocket. now rewrite Hshut. Qed.

Lemma nth_error_set_nth_same {A : Type} (i : nat) (x y : A) (l : list A) :
  nth_error l i = Some y -> nth_error (set_nth i x l) i = Some x.
Proof.
  revert i. induction l as [|z rest IH]; intros [|i]; simpl; try discriminate.
  - reflexivity.
  - apply IH.
Qed.

Lemma nth_error_set_nth_other {A : Type} (i j : nat) (x : A) (l : list A) :
  i <> j -> nth_error (set_nth i x l) j = nth_error l j.
Proof.
  revert i j. induction l as [|z rest IH]; intros [|i] [|j] Hne; simpl;
    try reflexivity; try congruence.
  apply IH. congruence.
Qed.

(** X10.  [connectWebSocket] with no open current socket: one socket is
    added, connecting, and becomes the current one; the sockets created
    before are left as they are (the previous one is not closed), and
    nothing else changes. *)
Theorem connect_when_not_open (w : World) (Hshut : ws_is_open w = false) :
  let w' := connectWebSocket w in
  sockets w' = (sockets w ++ [CONNECTING])%list
  /\ ws (state w') = Some (List.length (sockets w))
  /\ nth_error (sockets w') (List.length (sockets w)) = Some CONNECTING
  /\ (forall i r, nth_error (sockets w) i = Some r ->
                  nth_error (sockets w') i = Some r)
  /\ timers w' = timers w /\ trace w' = trace w
  /\ prices (state w') = prices (state w)
  /\ alerts (state w') = alerts (state w)
  /\ isConnected (state w') = isConnected (state w).
Proof.
  intros w'. unfold w'. rewrite (connectWebSocket_not_open w Hshut). simpl.
  split; [reflexivity|]. split; [reflexivity|].
  split; [now rewrite nth_error_app2, Nat.sub_diag by lia|].
  split; [|repeat split].
  intros i r Hi. rewrite nth_error_app1; [exact Hi|].
  apply nth_error_Some. congruence.
Qed.

(** X11.  [sendWebSocketMessage] hands the message to the current socket
    when that socket is open, and otherwise drops it: the world is then
    exactly as before, with nothing queued for later. *)
Theorem send_only_while_open (message : json) (w : World) :
  (ws_is_open w = false -> sendWebSocketMessage message w = w)
  /\ (ws_is_open w = true ->
      exists i, ws (state w) = Some i
                /\ nth_error (sockets w) i = Some OPEN
                /\ sendWebSocketMessage message w
                   = emit (SocketSend i message) w).
Proof.
  unfold sendWebSocketMessage. split; intros Hopen; rewrite Hopen;
    [reflexivity|].
  unfold ws_is_open in Hopen.
  destruct (ws (state w)) as [i|]; [|discriminate].
  exists i. split; [reflexivity|]. split; [|reflexivity].
  destruct (nth_error (sockets w) i) as [r|]; [|discriminate].
  destruct r; try discriminate. reflexivity.
Qed.

Lemma onmessage_isConnected (parsed : option json) (w : World) :
  isConnected (state (onmessage parsed w)) = isConnected (state w).
Proof.
  destruct (onmessage_effect parsed w) as (entries & Hst & _).
  rewrite Hst. apply merge_entries_rest_state.
Qed.

Lemma perform_isConnected (a : Action) (w : World) :
  isConnected (state (perform a w)) = isConnected (state w).
Proof. apply perform_effect. Qed.

Lemma ws_is_open_frame (w w' : World) :
  sockets w' = sockets w -> ws (state w') = ws (state w) ->
  ws_is_open w' = ws_is_open w.
Proof. intros Hs Hw. unfold ws_is_open. now rewrite Hs, Hw. Qed.

Lemma single_connection_frame (w w' : World) :
  sockets w' = sockets w -> timers w' = timers w ->
  ws (state w') = ws (state w) ->
  isConnected (state w') = isConnected (state w) ->
  single_connection w -> single_connection w'.
Proof.
  intros Hs Ht Hw Hc (Hone & Hlive & Hflag).
  unfold single_connection, one_attempt in *.
  rewrite (ws_is_open_frame w w' Hs Hw), Hs, Ht, Hw, Hc. auto.
Qed.

Lemma started_single_connection (w : World) :
  sockets w = [] -> timers w = [] -> isConnected (state w) = false ->
  single_connection (connectWebSocket w).
Proof.
  intros Hs Ht Hc. split; [now apply connectWebSocket_first|].
  assert (Hshut : ws_is_open w = false).
  { unfold ws_is_open. rewrite Hs. destruct (ws (state w)) as [[|i]|]; reflexivity. }
  rewrite (connectWebSocket_not_open w Hshut). unfold ws_is_open. simpl.
  rewrite Hs. simpl. split; [|exact Hc].
  intros [|[|i]] r; simpl; try discriminate. reflexivity.
Qed.

Lemma step_single_connection (ev : Event) (w : World) :
  permitted ev w = true -> single_connection w -> single_connection (step ev w).
Proof.
  intros Hperm Hinv.
  pose proof (step_one_attempt ev w Hperm (proj1 Hinv)) as Hone'.
  destruct Hinv as (Hone & Hlive & Hflag).
  destruct ev as [i|i parsed|i|i|n|a]; simpl in *.
  - destruct (nth_error (sockets w) i) as [r|] eqn:Hnth; [|discriminate].
    destruct r; try discriminate.
    assert (Hws : ws (state w) = Some i) by (now apply (Hlive i CONNECTING)).
    split; [exact Hone'|]. unfold ws_is_open. simpl. rewrite Hws.
    rewrite (nth_error_set_nth_same i OPEN CONNECTING _ Hnth). simpl.
    split; [|reflexivity].
    intros j r Hj Hr. destruct (Nat.eq_dec i j) as [->|Hne]; [reflexivity|].
    rewrite nth_error_set_nth_other in Hj by exact Hne.
    rewrite (Hlive j r Hj Hr) in Hws. congruence.
  - destruct (nth_error (sockets w) i); [|discriminate].
    destruct (onmessage_frame parsed w) as (Hs & Ht & Hw).
    apply (single_connection_frame w); auto.
    + apply onmessage_isConnected.
    + exact (conj Hone (conj Hlive Hflag)).
  - destruct (nth_error (sockets w) i); [|discriminate].
    exact (conj Hone (conj Hlive Hflag)).
  - destruct (nth_error (sockets w) i) as [r|] eqn:Hnth; [|discriminate].
    apply negb_true_iff in Hperm.
    assert (Hws : ws (state w) = Some i) by (now apply (Hlive i r)).
    split; [exact Hone'|]. unfold ws_is_open. simpl. rewrite Hws.
    rewrite (nth_error_set_nth_same i CLOSED r _ Hnth). simpl.
    split; [|reflexivity].
    intros j r' Hj Hr'. destruct (Nat.eq_dec i j) as [->|Hne].
    + rewrite (nth_error_set_nth_same j CLOSED r _ Hnth) in Hj.
      injection Hj as <-. discriminate Hr'.
    + rewrite nth_error_set_nth_other in Hj by exact Hne.
      rewrite (Hlive j r' Hj Hr') in Hws. congruence.
  - apply Nat.ltb_lt in Hperm.
    destruct (nth_error (timers w) n) as [t|] eqn:Hnth;
      [|apply nth_error_None in Hnth; lia].
    split; [exact Hone'|].
    destruct Hone as [Hsum _].
    assert (Hdead : live_sockets (sockets w) = 0) by lia.
    assert (Hshut : ws_is_open w = false).
    { unfold ws_is_open. destruct (ws (state w)) as [i|]; [|reflexivity].
      destruct (nth_error (sockets w) i) as [r|] eqn:Hi; [|reflexivity].
      now rewrite (live_sockets_zero i r (sockets w) Hdead Hi). }
    destruct (callback t). simpl.
    assert (Hshut' : ws_is_open (set_timers (remove_nth n (timers w)) w) = false)
      by exact Hshut.
    rewrite (connectWebSocket_not_open _ Hshut'). unfold ws_is_open. simpl.
    rewrite nth_error_app2, Nat.sub_diag by lia. simpl.
    split; [|now rewrite Hflag, Hshut].
    intros j r Hj Hr.
    destruct (Nat.lt_ge_cases j (List.length (sockets w))) as [Hlt|Hge].
    + rewrite nth_error_app1 in Hj by exact Hlt.
      rewrite (live_sockets_zero j r (sockets w) Hdead Hj) in Hr. discriminate.
    + destruct (Nat.eq_dec j (List.length (sockets w))) as [->|Hne];
        [reflexivity|].
      assert (Hnone : nth_error (sockets w ++ [CONNECTING]) j = None).
      { apply nth_error_None. rewrite length_app. simpl. lia. }
      congruence.
  - destruct (perform_frame a w) as (Hs & Ht & Hw).
    apply (single_connection_frame w); auto.
    + apply perform_isConnected.
    + exact (conj Hone (conj Hlive Hflag)).
Qed.

Lemma run_single_connection (evs : list Event) (w : World) :
  conforming evs w = true -> single_connection w ->
  single_connection (run evs w).
Proof.
  revert w. induction evs as [|ev rest IH]; intros w Hconf Hinv; simpl.
  - exact Hinv.
  - simpl in Hconf. apply andb_prop in Hconf. destruct Hconf as [Hperm Hrest].
    apply IH; [exact Hrest|]. now apply step_single_connection.
Qed.


(** X13.  Recovery after a close, along such a run: once the current socket
    has closed, the only pending timer is the reconnect timer, and when it
    fires a new socket starts connecting and becomes the current one. *)
Theorem close_then_timer_reconnects (w0 : World) (evs : list Event) (i : nat)
  (Hsockets : sockets w0 = []) (Htimers : timers w0 = [])
  (Hconf : conforming (evs ++ [SocketClose i]) (connectWebSocket w0) = true) :
  let closed := run (evs ++ [SocketClose i]) (connectWebSocket w0) in
  let again := step (TimerFire 0) closed in
  timers closed = [reconnect_timer]
  /\ live_sockets (sockets closed) = 0
  /\ sockets again = (sockets closed ++ [CONNECTING])%list
  /\ ws (state again) = Some (List.length (sockets closed))
  /\ timers again = [].
Proof.
  intros closed again.
  destruct (run_one_attempt _ _ Hconf
              (connectWebSocket_first w0 Hsockets Htimers)) as [Hsum Hall].
  fold closed in Hsum, Hall.
  assert (Hlast : exists w1, closed = step (SocketClose i) w1
                             /\ permitted (SocketClose i) w1 = true).
  { unfold closed, run. rewrite fold_left_app. simpl.
    eexists. split; [reflexivity|].
    clear -Hconf. revert Hconf. generalize (connectWebSocket w0).
    induction evs as [|ev rest IH]; intros w Hconf; simpl in *.
    - now rewrite andb_true_r in Hconf.
    - apply andb_prop in Hconf. destruct Hconf as [_ Hrest]. now apply IH. }
  destruct Hlast as (w1 & Hclosed & Hperm). simpl in Hperm.
  assert (Htim : exists l, timers closed = (l ++ [reconnect_timer])%list).
  { rewrite Hclosed. simpl.
    destruct (nth_error (sockets w1) i); [|discriminate].
    now exists (timers w1). }
  destruct Htim as [l Htim].
  assert (Hl : l = []).
  { rewrite Htim, length_app in Hsum. simpl in Hsum.
    destruct l; [reflexivity | simpl in Hsum; lia]. }
  subst l. simpl in Htim.
  assert (Hdead : live_sockets (sockets closed) = 0).
  { rewrite Htim in Hsum. simpl in Hsum. lia. }
  assert (Hshut : ws_is_open closed = false).
  { unfold ws_is_open. destruct (ws (state closed)) as [j|]; [|reflexivity].
    destruct (nth_error (sockets closed) j) as [r|] eqn:Hj; [|reflexivity].
    now rewrite (live_sockets_zero j r (sockets closed) Hdead Hj). }
  split; [exact Htim|]. split; [exact Hdead|].
  unfold again. simpl. rewrite Htim. simpl.
  assert (Hshut' : ws_is_open (set_timers [] closed) = false) by exact Hshut.
  rewrite (connectWebSocket_not_open _ Hshut'). simpl.
  repeat split.
Qed.

(** ** The registry operations on success *)

Lemma findIndex_Some {A : Type} (p : A -> bool) (l : list A) (i : nat) :
  findIndex p l = Some i ->
  exists x, nth_error l i = Some x /\ p x = true
            /\ forall j y, j < i -> nth_error l j = Some y -> p y = false.
Proof.
  revert i. induction l as [|a rest IH]; intros i; simpl; [discriminate|].
  destruct (p a) eqn:Hpa.
  - intros [= <-]. exists a. split; [reflexivity|]. split; [exact Hpa|].
    intros j y Hj. lia.
  - destruct (findIndex p rest) as [i'|]; [|discriminate].
    intros [= <-]. destruct (IH i' eq_refl) as (x & Hx & Hpx & Hbefore).
    exists x. split; [exact Hx|]. split; [exact Hpx|].
    intros [|j] y Hj Hy; simpl in Hy.
    + now injection Hy as <-.
    + apply (Hbefore j y); [lia | exact Hy].
Qed.

Lemma findIndex_None {A : Type} (p : A -> bool) (l : list A) :
  findIndex p l = None <-> forall x, In x l -> p x = false.
Proof.
  induction l as [|a rest IH]; simpl.
  - split; [intros _ x [] | reflexivity].
  - destruct (p a) eqn:Hpa.
    + split; [discriminate|]. intros Hall.
      rewrite (Hall a (or_introl eq_refl)) in Hpa. discriminate.
    + destruct (findIndex p rest).
      * split; [discriminate|]. intros Hall.
        assert (Hnone : Some n = None).
        { apply IH. intros x Hx. apply Hall. now right. }
        discriminate Hnone.
      * split; [|reflexivity]. intros _ x [<-|Hx]; [exact Hpa|].
        now apply (proj1 IH).
Qed.

Lemma length_set_nth {A : Type} (i : nat) (x : A) (l : list A) :
  List.length (set_nth i x l) = List.length l.
Proof.
  revert i. induction l as [|a rest IH]; intros [|i]; simpl; auto.
Qed.

Lemma toggleAlert_success (alertId : Z) (o : FetchOutcome AlertRule)
  (alert : AlertRule) (w : World) :
  apiRequest_try o = Return alert ->
  toggleAlert alertId o w
  = match findIndex (fun a => Z.eqb (id a) alertId) (alerts (state w)) with
    | Some index =>
        (emit RenderAlerts
           (set_state
              (fun s => set_alerts (set_nth index alert (alerts s)) s) w),
         Return alert)
    | None => (w, Return alert)
    end.
Proof.
  intros Hok. unfold toggleAlert. now rewrite (apiRequest_Return _ _ _ Hok).
Qed.


Lemma activeCount_cons (a : AlertRule) (l : list AlertRule) :
  activeCount (a :: l) = (if active a then 1 else 0) + activeCount l.
Proof. unfold activeCount. simpl. now destruct (active a). Qed.

Lemma activeCount_set_nth (i : nat) (x old : AlertRule) (l : list AlertRule) :
  nth_error l i = Some old ->
  activeCount (set_nth i x l) + (if active old then 1 else 0)
  = activeCount l + (if active x then 1 else 0).
Proof.
  revert i. induction l as [|a rest IH]; intros [|i]; simpl; try discriminate.
  - intros [= ->]. rewrite !activeCount_cons. lia.
  - intros Hi. rewrite !activeCount_cons. specialize (IH i Hi). lia.
Qed.



Lemma ids_set_nth (i : nat) (x old : AlertRule) (l : list AlertRule) :
  nth_error l i = Some old -> id x = id old -> ids (set_nth i x l) = ids l.
Proof.
  unfold ids. revert i.
  induction l as [|a rest IH]; intros [|i]; simpl; try discriminate.
  - intros [= ->] ->. reflexivity.
  - intros Hi Hid. f_equal. now apply IH.
Qed.

Lemma NoDup_ids_filter (p : AlertRule -> bool) (l : list AlertRule) :
  NoDup (ids l) -> NoDup (ids (filter p l)).
Proof.
  unfold ids. induction l as [|a rest IH]; simpl; intros Hnd; [constructor|].
  inversion Hnd as [|? ? Hfresh Hrest]; subst.
  destruct (p a); simpl; [|now apply IH].
  constructor; [|now apply IH].
  intros Hin. apply Hfresh. apply in_map_iff in Hin.
  destruct Hin as (b & Hid & Hb). apply filter_In in Hb.
  rewrite <- Hid. apply in_map. tauto.
Qed.

(** X17.  The registry stays free of duplicate identifiers: after a create
    that returns a rule with an identifier not yet held, after any delete,
    and after a toggle that returns a rule carrying the identifier it was
    asked to toggle.  After a listing the registry is the listing, so it is
    duplicate-free when the listing is. *)
Theorem registry_ids_stay_unique (w : World) (alertId : Z)
  (created toggled : FetchOutcome AlertRule) (deleted : FetchOutcome json)
  (listing : FetchOutcome (list AlertRule))
  (c t : AlertRule) (body : json) (fresh : list AlertRule)
  (Hunique : NoDup (ids (alerts (state w))))
  (Hc : apiRequest_try created = Return c)
  (Hfresh : ~ In (id c) (ids (alerts (state w))))
  (Ht : apiRequest_try toggled = Return t)
  (Hsame : id t = alertId)
  (Hd : apiRequest_try deleted = Return body)
  (Hl : apiRequest_try listing = Return fresh) :
  NoDup (ids (alerts (state (fst (createAlert created w)))))
  /\ NoDup (ids (alerts (state (fst (toggleAlert alertId toggled w)))))
  /\ NoDup (ids (alerts (state (fst (deleteAlert alertId deleted w)))))
  /\ alerts (state (fst (fetchAlerts listing w))) = fresh.
Proof.
  split; [|split; [|split]].
  - destruct (createAlert_front created c w Hc) as [Hfront _].
    rewrite Hfront. simpl. now constructor.
  - rewrite (toggleAlert_success alertId toggled t w Ht).
    destruct (findIndex _ _) as [i|] eqn:Hfind; simpl; [|exact Hunique].
    destruct (findIndex_Some _ _ _ Hfind) as (old & Hold & Hid & _).
    apply Z.eqb_eq in Hid.
    rewrite (ids_set_nth i t old _ Hold); [exact Hunique | congruence].
  - destruct (deleteAlert_filter alertId deleted body w Hd) as [Hdel _].
    rewrite Hdel. now apply NoDup_ids_filter.
  - unfold fetchAlerts. now rewrite (apiRequest_Return _ _ _ Hl).
Qed.

(** ** The session *)

(** X18.  [logout] ends the session and nothing else: the price cache, the
    filter, the current socket, the connectivity flag, the sockets and the
    timers are as before (the stream stays up); the alert list shows the
    prompt to sign in; the statistics are not refreshed; and a second
    [logout] changes no state. *)
Theorem logout_ends_session_only (w : World) :
  anonymous (state (logout w))
  /\ alerts (state (logout w)) = []
  /\ localStorage (logout w) = None
  /\ alertsView (state (logout w)) = SignInPrompt
  /\ prices (state (logout w)) = prices (state w)
  /\ activeFilter (state (logout w)) = activeFilter (state w)
  /\ ws (state (logout w)) = ws (state w)
  /\ isConnected (state (logout w)) = isConnected (state w)
  /\ sockets (logout w) = sockets w
  /\ timers (logout w) = timers w
  /\ trace (logout w) = (trace w ++ [UpdateUserUI; RenderAlerts])%list
  /\ state (logout (logout w)) = state (logout w).
Proof.
  unfold anonymous, logout, alertsView. simpl.
  rewrite <- app_assoc. repeat split; reflexivity.
Qed.

(** X19.  A login whose three requests succeed returns the token, and the
    registry is the listing.  When the [email] of the profile is not empty,
    the token is in [state] and in [localStorage], the profile is set, and
    the alert cards are shown (or the empty notice).  When it is empty,
    [updateUserUI] throws inside [fetchUserProfile], whose [catch] logs out:
    the session ends anonymous with no stored token, and the alert list
    shows the prompt to sign in. *)
Theorem login_success_sets_session (w : World) (access_token : string)
  (u : User) (l : list AlertRule)
  (profile : FetchOutcome User) (listing : FetchOutcome (list AlertRule))
  (Hprofile : apiRequest_try profile = Return u)
  (Hlisting : apiRequest_try listing = Return l) :
  let r := login (ResponseOk (Some access_token)) profile listing w in
  snd r = Return access_token
  /\ alerts (state (fst r)) = l
  /\ prices (state (fst r)) = prices (state w)
  /\ (email u <> "" ->
      token (state (fst r)) = Some access_token
      /\ localStorage (fst r) = Some access_token
      /\ user (state (fst r)) = Some u
      /\ alertsView (state (fst r))
         = match l with [] => NoAlertsYet | _ :: _ => AlertCards l end)
  /\ (email u = "" ->
      anonymous (state (fst r))
      /\ localStorage (fst r) = None
      /\ alertsView (state (fst r)) = SignInPrompt).
Proof.
  intros r. unfold r, login, fetchUserProfile, fetchAlerts, updateUserUI.
  rewrite (apiRequest_Return _ _ _ Hprofile). cbn [fst snd state user set_state set_user].
  destruct (String.eqb (email u) "") eqn:Hemail;
    rewrite (apiRequest_Return _ _ _ Hlisting); simpl;
    (split; [reflexivity|]); (split; [reflexivity|]); (split; [reflexivity|]);
    split.
  - intros Hne. apply String.eqb_eq in Hemail. contradiction.
  - intros _. unfold anonymous, alertsView. simpl. repeat split.
  - intros _. unfold alertsView. simpl.
    repeat split; try reflexivity. destruct l; reflexivity.
  - intros He. apply String.eqb_neq in Hemail. contradiction.
Qed.

Lemma login_failure (w : World) (auth : FetchOutcome string)
  (profile : FetchOutcome User) (listing : FetchOutcome (list AlertRule)) :
  (forall t, auth <> ResponseOk (Some t)) ->
  exists e, login auth profile listing w = (w, Throw e).
Proof.
  intros Hfail. unfold login. destruct auth as [|[t|]|[body|]]; simpl.
  - now exists FetchError.
  - exfalso. now apply (Hfail t).
  - now exists SyntaxError.
  - destruct body; simpl; eexists; reflexivity.
  - eexists; reflexivity.
Qed.

(** X20.  A login whose token request fails, in any way, throws and leaves
    the world exactly as it was: no state, no stored token, no request for
    the profile or the alerts, and, unlike [apiRequest], no line on the
    console. *)
Theorem login_failure_changes_nothing (w : World) (auth : FetchOutcome string)
  (profile : FetchOutcome User) (listing : FetchOutcome (list AlertRule))
  (Hfail : forall t, auth <> ResponseOk (Some t)) :
  fst (login auth profile listing w) = w
  /\ trace (fst (login auth profile listing w)) = trace w
  /\ exists e, snd (login auth profile listing w) = Throw e.
Proof.
  destruct (login_failure w auth profile listing Hfail) as [e He].
  rewrite He. simpl. split; [reflexivity|]. split; [reflexivity|].
  now exists e.
Qed.

(** X21.  A login whose token request succeeds and whose profile request
    fails: [fetchUserProfile] logs out, so the session ends anonymous with
    no stored token, and yet [login] returns normally; the sign-in form
    then shows the success toast and closes. *)
Theorem login_succeeds_though_logged_out (w : World) (access_token : string)
  (profile : FetchOutcome User) (listing : FetchOutcome (list AlertRule))
  (registration : FetchOutcome json) (e : Exn)
  (Hprofile : apiRequest_try profile = Throw e) :
  let r := login (ResponseOk (Some access_token)) profile listing w in
  let h := authSubmit true registration (ResponseOk (Some access_token))
             profile listing w in
  snd r = Return access_token
  /\ anonymous (state (fst r))
  /\ localStorage (fst r) = None
  /\ alertsView (state (fst r)) = SignInPrompt
  /\ fst h = fst r
  /\ toast (snd h)
     = Some {| toastText := Text "Welcome back!"; toastType := ToastSuccess |}
  /\ modalClosed (snd h) = true.
Proof.
  intros r h.
  assert (Hr : r = (fst (fetchAlerts listing
                           (logout (emit (ConsoleError "API Error:" (Some e))
                                      (set_localStorage (Some access_token)
                                         (set_state (set_token (Some access_token)) w))))),
                    Return access_token)).
  { unfold r, login, fetchUserProfile.
    now rewrite (apiRequest_Throw _ _ _ Hprofile). }
  assert (Hh : h = (fst r, {| toast := Some {| toastText := Text "Welcome back!";
                                               toastType := ToastSuccess |};
                              modalClosed := true; unhandled := None |})).
  { unfold h, authSubmit. fold r. rewrite Hr. reflexivity. }
  rewrite Hh, Hr. unfold anonymous, alertsView, fetchAlerts, apiRequest. simpl.
  destruct (apiRequest_try listing); simpl; repeat split; reflexivity.
Qed.

(** X22.  [register] does not authenticate: whether it succeeds or fails,
    the state and the stored token are as before.  In the sign-up form, a
    failed registration ends the handler: no login is attempted, the error
    toast is shown and the modal stays open. *)
Theorem register_does_not_authenticate (w : World)
  (registration : FetchOutcome json) (auth : FetchOutcome string)
  (profile : FetchOutcome User) (listing : FetchOutcome (list AlertRule)) :
  state (fst (register registration w)) = state w
  /\ localStorage (fst (register registration w)) = localStorage w
  /\ (forall e, apiRequest_try registration = Throw e ->
        authSubmit false registration auth profile listing w
        = (emit (ConsoleError "API Error:" (Some e)) w,
           {| toast := Some {| toastText := message_or e "Authentication failed";
                               toastType := ToastError |};
              modalClosed := false; unhandled := None |})).
Proof.
  unfold authSubmit, register, apiRequest.
  destruct (apiRequest_try registration) as [v|e0]; simpl.
  - repeat split. intros e [=].
  - repeat split. intros e [= ->]. reflexivity.
Qed.

Lemma message_or_nonempty (e : Exn) (fallback s : string) :
  fallback <> "" -> message_or e fallback = Text s -> s <> "".
Proof.
  intros Hfb. destruct e as [m| | |]; simpl; try discriminate.
  intros [= <-]. destruct (String.eqb m "") eqn:E; [exact Hfb|].
  now apply String.eqb_neq.
Qed.




(** X26.  The handlers on an alert card.  A delete that is not confirmed
    does nothing.  A delete or a toggle whose request fails leaves the
    registry as it was and shows no toast: neither handler catches, so the
    error of the request is left unhandled.  The alert form, by contrast,
    catches: it shows an error toast and stays open. *)
Theorem card_handlers_do_not_catch (w : World) (alertId : Z)
  (deleted : FetchOutcome json) (toggled created : FetchOutcome AlertRule)
  (ed et ec : Exn)
  (Hd : apiRequest_try deleted = Throw ed)
  (Ht : apiRequest_try toggled = Throw et)
  (Hc : apiRequest_try created = Throw ec) :
  deleteClick false alertId deleted w
  = (w, {| toast := None; modalClosed := false; unhandled := None |})
  /\ (alerts (state (fst (deleteClick true alertId deleted w))) = alerts (state w)
      /\ snd (deleteClick true alertId deleted w)
         = {| toast := None; modalClosed := false; unhandled := Some ed |})
  /\ (alerts (state (fst (toggleClick alertId toggled w))) = alerts (state w)
      /\ snd (toggleClick alertId toggled w)
         = {| toast := None; modalClosed := false; unhandled := Some et |})
  /\ (alerts (state (fst (alertSubmit created w))) = alerts (state w)
      /\ snd (alertSubmit created w)
         = {| toast := Some {| toastText := message_or ec "Failed to create alert";
                               toastType := ToastError |};
              modalClosed := false; unhandled := None |}).
Proof.
  unfold deleteClick, toggleClick, alertSubmit, deleteAlert, toggleAlert,
    createAlert.
  rewrite (apiRequest_Throw _ _ _ Hd), (apiRequest_Throw _ _ _ Ht),
    (apiRequest_Throw _ _ _ Hc).
  simpl. repeat split; reflexivity.
Qed.

(** ** The category views *)

Lemma catalog_categories :
  forallb (fun entry =>
             existsb (String.eqb (category (snd entry)))
                     ["crypto"; "stocks"; "indices"; "commodities"])
          INSTRUMENTS = true.
Proof. vm_compute. reflexivity. Qed.

Lemma category_of_known (s c : string) :
  category_of s = Some c ->
  In c ["crypto"; "stocks"; "indices"; "commodities"].
Proof.
  unfold category_of. destruct (assoc s INSTRUMENTS) as [info|] eqn:Hs;
    [|discriminate].
  intros [= <-]. apply assoc_In in Hs.
  pose proof catalog_categories as Hall. rewrite forallb_forall in Hall.
  specialize (Hall (s, info) Hs). cbn [snd] in Hall.
  apply existsb_exists in Hall. destruct Hall as (c & Hc & Heq).
  apply String.eqb_eq in Heq. now rewrite Heq.
Qed.

Lemma shows_category (filter_ s : string) :
  filter_ <> "all" ->
  shows filter_ s = match category_of s with
                    | Some c => String.eqb c filter_
                    | None => false
                    end.
Proof.
  intros Hne. unfold shows. apply String.eqb_neq in Hne. now rewrite Hne.
Qed.

(** X27.  The views of the four catalog categories split the catalogued
    part of the cache: the entries shown under ["all"] are as many as those
    shown under crypto, stocks, indices and commodities together plus the
    entries of symbols outside the catalog.  Under any other filter the
    view is empty, so the grid shows the loading state however many quotes
    the cache holds. *)
Theorem category_views_partition (st : PriceStore) :
  List.length (pricesToShow "all" st)
  = List.length (pricesToShow "crypto" st)
    + List.length (pricesToShow "stocks" st)
    + List.length (pricesToShow "indices" st)
    + List.length (pricesToShow "commodities" st)
    + List.length (filter (fun e => match category_of (fst e) with
                                    | Some _ => false
                                    | None => true
                                    end) (prices_entries st))
  /\ (forall filter_ s,
        ~ In filter_ ["all"; "crypto"; "stocks"; "indices"; "commodities"] ->
        pricesToShow filter_ (prices s) = []
        /\ gridLoading (set_activeFilter filter_ s) = true).
Proof.
  split.
  - rewrite !pricesToShow_filter.
    induction (prices_entries st) as [|[s q] rest IH]; [reflexivity|].
    cbn [filter fst].
    rewrite (shows_category "crypto" s), (shows_category "stocks" s),
      (shows_category "indices" s), (shows_category "commodities" s)
      by discriminate.
    change (shows "all" s) with true.
    destruct (category_of s) as [c|] eqn:Hc.
    + apply category_of_known in Hc.
      destruct Hc as [<-|[<-|[<-|[<-|[]]]]];
        repeat match goal with
               | |- context [String.eqb ?a ?b] =>
                   let v := eval vm_compute in (String.eqb a b) in
                   change (String.eqb a b) with v
               end;
        cbn [List.length]; lia.
    + cbn [List.length]. lia.
  - intros filter_ s Hout.
    assert (Hempty : pricesToShow filter_ (prices s) = []).
    { rewrite pricesToShow_filter.
      induction (prices_entries (prices s)) as [|[k q] rest IH]; [reflexivity|].
      cbn [filter fst]. rewrite shows_category by (intros ->; apply Hout; now left).
      destruct (category_of k) as [c|] eqn:Hc; [|exact IH].
      destruct (String.eqb c filter_) eqn:E; [|exact IH].
      apply String.eqb_eq in E. subst c. apply category_of_known in Hc.
      exfalso. apply Hout. now right. }
    split; [exact Hempty|]. unfold gridLoading. simpl. now rewrite Hempty.
Qed.

(** ** [debounce] *)

Lemma debounce_run_snoc {A : Type} (wait : Z) (evs : list (DebounceEvent A))
  (ev : DebounceEvent A) (d : Debounced A) :
  debounce_run wait (evs ++ [ev]) d
  = debounce_step wait (debounce_run wait evs d) ev.
Proof. unfold debounce_run. now rewrite fold_left_app. Qed.

Lemma debounce_calls_invoked {A : Type} (wait : Z) (calls : list (Z * A))
  (d : Debounced A) :
  invoked (debounce_run wait (map (fun c => Called (fst c) (snd c)) calls) d)
  = invoked d.
Proof.
  revert d. induction calls as [|c rest IH]; intros d; [reflexivity|].
  change (invoked
            (debounce_run wait (map (fun c => Called (fst c) (snd c)) rest)
               (executedFunction wait (fst c) (snd c) d)) = invoked d).
  now rewrite IH.
Qed.

Lemma debounce_calls_pending {A : Type} (wait : Z) (calls : list (Z * A))
  (now : Z) (args : A) (d : Debounced A) :
  debounce_run wait
    (map (fun c => Called (fst c) (snd c)) calls ++ [Called now args]) d
  = {| pendingCall := Some ((now + wait)%Z, args); invoked := invoked d |}.
Proof.
  rewrite debounce_run_snoc. simpl. unfold executedFunction.
  now rewrite debounce_calls_invoked.
Qed.

Lemma debounce_run_sound {A : Type} (wait : Z) (evs : list (DebounceEvent A)) :
  debounce_sound wait evs (debounce_run wait evs (debounce_new A)).
Proof.
  induction evs as [|ev evs IH] using rev_ind.
  - unfold debounce_sound. simpl. split; [intros t a []|].
    split; [discriminate | lia].
  - rewrite debounce_run_snoc.
    destruct IH as (Hinv & Hpend & Hcount).
    set (d := debounce_run wait evs (debounce_new A)) in *.
    unfold debounce_sound. rewrite filter_app, length_app.
    destruct ev as [now args|now]; simpl.
    + split; [|split].
      * intros t a Hin. destruct (Hinv t a Hin) as (tc & Hc & Hle).
        exists tc. split; [apply in_or_app; now left | exact Hle].
      * intros due a [= <- <-]. exists now.
        split; [apply in_or_app; right; now left | reflexivity].
      * destruct (pendingCall d); lia.
    + unfold later. destruct (pendingCall d) as [[due a]|] eqn:Hp.
      * destruct (due <=? now)%Z eqn:Hdue; simpl.
        -- apply Z.leb_le in Hdue. split; [|split].
           ++ intros t a' Hin. apply in_app_or in Hin.
              destruct Hin as [Hin|[[= <- <-]|[]]].
              ** destruct (Hinv t a' Hin) as (tc & Hc & Hle).
                 exists tc. split; [apply in_or_app; now left | exact Hle].
              ** destruct (Hpend due a eq_refl) as (tc & Hc & ->).
                 exists tc. split; [apply in_or_app; now left | exact Hdue].
           ++ discriminate.
           ++ rewrite length_app. simpl. lia.
        -- rewrite Hp. split; [|split].
           ++ intros t a' Hin. destruct (Hinv t a' Hin) as (tc & Hc & Hle).
              exists tc. split; [apply in_or_app; now left | exact Hle].
           ++ intros due' a' [= <- <-].
              destruct (Hpend due a eq_refl) as (tc & Hc & ->).
              exists tc. split; [apply in_or_app; now left | reflexivity].
           ++ lia.
      * rewrite Hp. split; [|split].
        -- intros t a' Hin. destruct (Hinv t a' Hin) as (tc & Hc & Hle).
           exists tc. split; [apply in_or_app; now left | exact Hle].
        -- discriminate.
        -- lia.
Qed.


End Dashboard.

Arguments Return {T} v.
Arguments Throw {T} e.
Arguments FetchRejected {number T}.
Arguments ResponseOk {number T} body.
Arguments ResponseNotOk {number T} body.
Arguments pendingCall {A} d.
Arguments invoked {A} d.
Arguments Called {A} now args.
Arguments TimerDue {A} now.

(** ** The properties at concrete inputs

    Numbers are safe integers here.  [BTC] and [ETH] are catalog symbols of
    category [crypto], in that order in the catalog; [FOO] is not in the
    catalog. *)

(** C9 at the world in which the first socket has opened. *)
Lemma connect_while_open_is_noop_witness :
  ws_is_open (run [SocketOpen 0] (started (number := SafeInteger) None)) = true
  /\ connectWebSocket (run [SocketOpen 0] (started (number := SafeInteger) None))
     = run [SocketOpen 0] (started None).
Proof.
  split; [reflexivity|].
  apply (connect_while_open_is_noop
           (run [SocketOpen 0] (started (number := SafeInteger) None))).
  reflexivity.
Defined.

(** C8 at a registry of two rules, with a third created and deleted. *)
Lemma create_then_delete_restores_witness :
  let a1 := {| id := 1; symbol := "BTC"; condition := "above";
               target_price := int 70000; active := true; triggered_count := 0;
               notification_types := "email" |} in
  let a2 := {| id := 2; symbol := "ETH"; condition := "below";
               target_price := int 3000; active := false; triggered_count := 2;
               notification_types := "email,sms" |} in
  let a7 := {| id := 7; symbol := "GOLD"; condition := "above";
               target_price := int 2500; active := true; triggered_count := 0;
               notification_types := "" |} in
  let w := set_state (set_alerts [a1; a2]) (started None) in
  alerts (state (fst (deleteAlert 7 (ResponseOk (Some JNull))
                        (fst (createAlert (ResponseOk (Some a7)) w)))))
  = [a1; a2].
Proof.
  intros a1 a2 a7 w.
  refine (proj1 (proj2 (create_then_delete_restores w a7 (ResponseOk (Some a7))
                          (ResponseOk (Some JNull)) JNull eq_refl eq_refl _))).
  intros a [<-|[<-|[]]]; simpl; discriminate.
Defined.

(** C6 at a stored token the profile service answers with 401. *)
Lemma profile_failure_forces_logout_witness :
  let unauthorized : FetchOutcome User :=
    ResponseNotOk (Some (JObj [("detail", JStr "Could not validate credentials")])) in
  let w := initial_world (number := SafeInteger) (Some "stale-token") in
  let w1 := fst (fetchUserProfile unauthorized
                   (set_state (set_token (Some "stale-token")) w)) in
  token (state w1) = None /\ localStorage w1 = None /\ user (state w1) = None
  /\ alerts (state w1) = [] /\ anonymous (state w1).
Proof.
  intros unauthorized w w1.
  refine (proj1 (profile_failure_forces_logout w "stale-token" unauthorized
                   FetchRejected
                   (Error "Could not validate credentials") eq_refl _ eq_refl)).
  discriminate.
Defined.

(** C2, as amended, at four requests that get no response. *)
Lemma registry_failure_leaves_cache_witness :
  let a1 := {| id := 1; symbol := "BTC"; condition := "above";
               target_price := int 70000; active := true; triggered_count := 0;
               notification_types := "email" |} in
  let w := set_state (set_alerts [a1]) (started None) in
  alerts (state (fst (fetchAlerts FetchRejected w))) = [a1]
  /\ snd (fetchAlerts FetchRejected w) = Return tt
  /\ snd (createAlert FetchRejected w) = Throw FetchError
  /\ snd (toggleAlert 1 FetchRejected w) = Throw FetchError
  /\ snd (deleteAlert 1 FetchRejected w) = Throw FetchError.
Proof.
  intros a1 w.
  destruct (registry_failure_leaves_cache w 1 FetchRejected FetchRejected
              FetchRejected FetchRejected FetchError FetchError FetchError
              FetchError eq_refl eq_refl eq_refl eq_refl)
    as ((Hstate & _ & Hlist & _) & (_ & _ & Hcreate) & (_ & _ & Htoggle)
        & (_ & _ & Hdelete)).
  rewrite Hstate. repeat split; assumption.
Defined.

(** C3, as amended, at a cache that received ETH before BTC. *)
Lemma filtered_view_in_cache_order_witness :
  let st := {| own := [("ETH", JObj [("price", JNum (int 3000))]);
                       ("BTC", JObj [("price", JNum (int 65000))])];
               proto := ObjectPrototype |} in
  prices_wf st
  /\ (forall s q,
        In (s, q) (pricesToShow "crypto" st)
        <-> prices_get st s = Some q
            /\ ("crypto" = "all" \/ category_of s = Some "crypto")).
Proof.
  intros st.
  assert (Hwf : prices_wf st).
  { unfold prices_wf; simpl.
    repeat constructor; simpl; intuition discriminate. }
  split; [exact Hwf|].
  exact (proj1 (filtered_view_in_cache_order "crypto" st Hwf)).
Defined.

(** C10 at a cache that holds a quote for FOO. *)
Lemma uncatalogued_symbol_views_witness :
  let st := {| own := [("BTC", JObj [("price", JNum (int 65000))]);
                       ("FOO", JObj [("price", JNum (int 1))])];
               proto := ObjectPrototype |} in
  ~ In "FOO" (map fst (pricesToShow "other" st))
  /\ In ("FOO", JObj [("price", JNum (int 1))]) (pricesToShow "all" st).
Proof.
  intros st.
  destruct (uncatalogued_symbol_views st "FOO" (JObj [("price", JNum (int 1))])
              eq_refl eq_refl) as (_ & Hother & Hall & _).
  split; assumption.
Defined.

(** C4, as amended, at a frame of an unknown type. *)
Lemma unrecognised_frame_dropped_witness :
  let frame := JObj [("type", JStr "ping")] in
  let w := run [SocketOpen 0] (started (number := SafeInteger) None) in
  state (onmessage (Some frame) w) = state w
  /\ sockets (onmessage (Some frame) w) = sockets w
  /\ trace (onmessage (Some frame) w) = (trace w ++ [])%list.
Proof.
  intros frame w.
  destruct (unrecognised_frame_dropped (Some frame) w eq_refl)
    as (Hstate & _ & Hsockets & _ & Htrace).
  repeat split; assumption.
Defined.


(** C1 at a run through two reconnections. *)
Lemma at_most_one_reconnect_timer_witness :
  let evs := [SocketClose 0; PageAction (DoSelectFilter "crypto");
              TimerFire 0; SocketOpen 1; SocketMessage 1 None;
              PageAction DoLogout; SocketClose 1] in
  let w := run evs (connectWebSocket (initial_world (number := SafeInteger) None)) in
  conforming evs (connectWebSocket (initial_world (number := SafeInteger) None))
  = true
  /\ List.length (timers w) <= 1
  /\ (forall i, timers w <> [] -> permitted (SocketClose i) w = false).
Proof.
  intros evs w.
  destruct (at_most_one_reconnect_timer (initial_world (number := SafeInteger) None)
              evs eq_refl eq_refl eq_refl) as (Hmost & _ & _ & Hnone).
  split; [reflexivity|]. split; [exact Hmost | exact Hnone].
Defined.

(** C2 as stated fails for the listing: the request fails and
    [fetchAlerts] returns normally, with nothing thrown to its caller. *)
Lemma fetchAlerts_swallows_failure :
  let w := started (number := SafeInteger) None in
  snd (apiRequest (T := list (@AlertRule SafeInteger)) FetchRejected w) = Throw FetchError
  /\ snd (fetchAlerts FetchRejected w) = Return tt
  /\ snd (fetchAlerts FetchRejected w) <> Throw FetchError.
Proof. simpl. repeat split; try reflexivity. discriminate. Qed.

(** C3 as stated fails: after a quote for ETH and then one for BTC, the
    crypto view lists ETH before BTC, while the catalog lists BTC first. *)
Lemma view_not_in_catalog_order :
  let eth := JObj [("symbol", JStr "ETH"); ("price", JNum (int 3000))] in
  let btc := JObj [("symbol", JStr "BTC"); ("price", JNum (int 65000))] in
  let w := run [SocketOpen 0; SocketMessage 0 (Some eth);
                SocketMessage 0 (Some btc)] (started None) in
  pricesToShow "crypto" (prices (state w)) = [("ETH", eth); ("BTC", btc)]
  /\ filteredView_spec "crypto" (prices (state w)) = [("BTC", btc); ("ETH", eth)]
  /\ pricesToShow "crypto" (prices (state w))
     <> filteredView_spec "crypto" (prices (state w)).
Proof. simpl. repeat split; try reflexivity. discriminate. Qed.

(** C4 as stated fails: a frame that parses, with an unknown [type] and no
    [symbol], leaves the world as it was, the trace included; nothing is
    logged. *)
Lemma unknown_type_dropped_silently :
  let frame := JObj [("type", JStr "ping")] in
  let w := run [SocketOpen 0] (started (number := SafeInteger) None) in
  get_own frame "symbol" = None
  /\ onmessage (Some frame) w = w
  /\ trace (onmessage (Some frame) w) = trace w.
Proof. simpl. repeat split; reflexivity. Qed.


(** ** Further properties at concrete inputs *)

(** X1 at a cache that holds ETH, written to under the array index 7. *)
Lemma prices_assign_then_get_witness :
  let st := {| own := [("ETH", JObj [("price", JNum (int 3000))])];
               proto := ObjectPrototype |} in
  prices_get (prices_assign "7" (JNum (int 1)) st) "7" = Some (JNum (int 1))
  /\ prices_get (prices_assign "7" (JNum (int 1)) st) "ETH"
     = Some (JObj [("price", JNum (int 3000))]).
Proof.
  intros st.
  assert (Hne : "7" <> "__proto__") by discriminate.
  destruct (prices_assign_then_get "7" (JNum (int 1)) st Hne) as (Hsame & Hother & _).
  split; [exact Hsame|].
  rewrite Hother; [reflexivity | discriminate].
Defined.

(** X2 at a snapshot of two symbols on the started page, where the second
    symbol names a member that [INSTRUMENTS] inherits: both quotes are
    stored, and the error of the rendering is logged. *)
Lemma snapshot_sets_every_quote_witness :
  let btc := JObj [("price", JNum (int 65000)); ("timestamp", JNum (int 0))] in
  let odd := JObj [("price", JNum (int 3000)); ("timestamp", JNum (int 0))] in
  let p := JObj [("BTC", btc); ("constructor", odd)] in
  let frame := JObj [("type", JStr "snapshot"); ("prices", p)] in
  let w' := onmessage (Some frame) (started None) in
  (p <> JNull /\ NoDup (map fst (Object_entries p))
   /\ ~ In "__proto__" (map fst (Object_entries p)))
  /\ prices_get (prices (state w')) "BTC" = Some btc
  /\ prices_get (prices (state w')) "constructor" = Some odd
  /\ trace w' = [ConsoleError "WebSocket message error:" (Some TypeError)].
Proof.
  intros btc odd p frame w'.
  assert (Hnonnull : p <> JNull) by discriminate.
  assert (Hkeys : NoDup (map fst (Object_entries p))).
  { simpl. repeat constructor; simpl; intuition discriminate. }
  assert (Hordinary : ~ In "__proto__" (map fst (Object_entries p))).
  { simpl. intuition discriminate. }
  destruct (snapshot_sets_every_quote frame p (started None) eq_refl eq_refl
              Hnonnull Hkeys Hordinary) as (Hall & _ & Htrace).
  split; [split; [exact Hnonnull | split; [exact Hkeys | exact Hordinary]]|].
  split; [apply Hall; simpl; tauto|].
  split; [apply Hall; simpl; tauto | exact Htrace].
Defined.

(** X3 at a snapshot frame that has no [prices]. *)
Lemma snapshot_without_prices_logged_witness :
  let frame := JObj [("type", JStr "snapshot")] in
  state (onmessage (Some frame) (started (number := SafeInteger) None))
  = state (started None).
Proof.
  intros frame.
  exact (proj2 (snapshot_without_prices_logged frame (started None) eq_refl
                  (or_introl eq_refl))).
Defined.



(** X7 at a cache that holds BTC, through a close, a logout and a
    reconnection. *)
Lemma cache_never_forgets_witness :
  let btc := JObj [("symbol", JStr "BTC"); ("price", JNum (int 65000))] in
  let w := onmessage (Some btc) (started None) in
  exists q',
    prices_get
      (prices (state (run [SocketClose 0; PageAction DoLogout; TimerFire 0] w)))
      "BTC" = Some q'.
Proof.
  intros btc w.
  exact (cache_never_forgets w [SocketClose 0; PageAction DoLogout; TimerFire 0]
           "BTC" btc eq_refl).
Defined.

(** X8 at a heartbeat that carries a symbol and a price. *)
Lemma only_price_tasks_write_cache_witness :
  let btc := JObj [("symbol", JStr "BTC"); ("price", JNum (int 65000))] in
  let beat := JObj [("type", JStr "heartbeat"); ("symbol", JStr "BTC");
                    ("price", JNum (int 1))] in
  let w := onmessage (Some btc) (run [SocketOpen 0] (started None)) in
  carries_prices (SocketMessage 0 (Some beat)) = false
  /\ prices (state (step (SocketMessage 0 (Some beat)) w)) = prices (state w).
Proof.
  intros btc beat w.
  split; [reflexivity|].
  exact (only_price_tasks_write_cache (SocketMessage 0 (Some beat)) w eq_refl).
Defined.

(** X9 at an answer and a snapshot frame with the same prices, which can
    be rendered. *)
Lemma initial_prices_like_snapshot_witness :
  let p := JObj [("BTC", JObj [("price", JNum (int 65000))])] in
  let data := JObj [("prices", p)] in
  let frame := JObj [("type", JStr "snapshot"); ("prices", p)] in
  data <> JNull
  /\ fetchInitialPrices (ResponseOk (Some data)) (started None)
     = onmessage (Some frame) (started None).
Proof.
  intros p data frame.
  assert (Hdata : data <> JNull) by discriminate.
  split; [exact Hdata|].
  destruct (proj1 (initial_prices_like_snapshot data p (started None) Hdata)
              eq_refl eq_refl frame eq_refl eq_refl) as (_ & Hrender & _).
  destruct (Hrender _ eq_refl) as (Hfetch & Hframe & _).
  now rewrite Hfetch, Hframe.
Defined.

(** X10 at the page whose first socket has closed. *)
Lemma connect_when_not_open_witness :
  let w := run [SocketClose 0] (started (number := SafeInteger) None) in
  sockets (connectWebSocket w) = [CLOSED; CONNECTING]
  /\ ws (state (connectWebSocket w)) = Some 1.
Proof.
  intros w.
  destruct (connect_when_not_open w eq_refl) as (Hsockets & Hws & _).
  split; [exact Hsockets | exact Hws].
Defined.


(** X13 at the first close of the first socket. *)
Lemma close_then_timer_reconnects_witness :
  let closed := run ([SocketOpen 0] ++ [SocketClose 0])
                  (connectWebSocket (initial_world (number := SafeInteger) None)) in
  timers closed = [reconnect_timer]
  /\ sockets (step (TimerFire 0) closed) = [CLOSED; CONNECTING].
Proof.
  intros closed.
  destruct (close_then_timer_reconnects (initial_world (number := SafeInteger) None)
              [SocketOpen 0] 0 eq_refl eq_refl eq_refl)
    as (Htimers & _ & Hsockets & _).
  split; [exact Htimers | exact Hsockets].
Defined.




(** X17 at a registry of two rules. *)
Lemma registry_ids_stay_unique_witness :
  let a1 := {| id := 1; symbol := "BTC"; condition := "above";
               target_price := int 70000; active := true; triggered_count := 0;
               notification_types := "email" |} in
  let a2 := {| id := 2; symbol := "ETH"; condition := "below";
               target_price := int 3000; active := true; triggered_count := 2;
               notification_types := "email,sms" |} in
  let a2' := {| id := 2; symbol := "ETH"; condition := "below";
                target_price := int 3000; active := false; triggered_count := 2;
                notification_types := "email,sms" |} in
  let a7 := {| id := 7; symbol := "GOLD"; condition := "above";
               target_price := int 2500; active := true; triggered_count := 0;
               notification_types := "" |} in
  let w := set_state (set_alerts [a1; a2]) (started None) in
  NoDup (ids (alerts (state (fst (createAlert (ResponseOk (Some a7)) w)))))
  /\ NoDup (ids (alerts (state (fst (toggleAlert 2 (ResponseOk (Some a2')) w))))).
Proof.
  intros a1 a2 a2' a7 w.
  assert (Hunique : NoDup (ids (alerts (state w)))).
  { simpl. repeat constructor; simpl; intuition discriminate. }
  assert (Hfresh : ~ In (id a7) (ids (alerts (state w)))).
  { simpl. intuition discriminate. }
  destruct (registry_ids_stay_unique w 2 (ResponseOk (Some a7))
              (ResponseOk (Some a2')) (ResponseOk (Some JNull))
              (ResponseOk (Some [a1])) a7 a2' JNull [a1]
              Hunique eq_refl Hfresh eq_refl eq_refl eq_refl eq_refl)
    as (Hcreate & Htoggle & _).
  split; [exact Hcreate | exact Htoggle].
Defined.

(** X19 at a login that finds a profile and no rule. *)
Lemma login_success_sets_session_witness :
  let u := {| uid := 4; email := "ada@example.com" |} in
  let r := login (ResponseOk (Some "jwt")) (ResponseOk (Some u))
             (ResponseOk (Some [])) (started (number := SafeInteger) None) in
  snd r = Return "jwt"
  /\ token (state (fst r)) = Some "jwt"
  /\ localStorage (fst r) = Some "jwt"
  /\ user (state (fst r)) = Some u.
Proof.
  intros u r.
  assert (Hemail : email u <> "") by discriminate.
  destruct (login_success_sets_session (started (number := SafeInteger) None) "jwt" u []
              (ResponseOk (Some u)) (ResponseOk (Some [])) eq_refl eq_refl)
    as (Hret & _ & _ & Hnonempty & _).
  destruct (Hnonempty Hemail) as (Htoken & Hstored & Huser & _).
  split; [exact Hret|]. split; [exact Htoken|].
  split; [exact Hstored | exact Huser].
Defined.

(** X20 at a login answered with 401 and a [detail]. *)
Lemma login_failure_changes_nothing_witness :
  let auth : FetchOutcome string :=
    ResponseNotOk (Some (JObj [("detail", JStr "Incorrect email or password")])) in
  fst (login auth FetchRejected FetchRejected (started (number := SafeInteger) None))
  = started None.
Proof.
  intros auth.
  refine (proj1 (login_failure_changes_nothing (started (number := SafeInteger) None) auth
                   FetchRejected FetchRejected _)).
  intros t. discriminate.
Defined.

(** X21 at a login whose profile request gets no response. *)
Lemma login_succeeds_though_logged_out_witness :
  let r := login (ResponseOk (Some "jwt")) FetchRejected FetchRejected
             (started (number := SafeInteger) None) in
  snd r = Return "jwt" /\ anonymous (state (fst r))
  /\ localStorage (fst r) = None.
Proof.
  intros r.
  destruct (login_succeeds_though_logged_out (started (number := SafeInteger) None) "jwt"
              FetchRejected FetchRejected FetchRejected FetchError eq_refl)
    as (Hret & Hanon & Hstored & _).
  repeat split; try assumption; apply Hanon.
Defined.



(** X26 at three requests that get no response. *)
Lemma card_handlers_do_not_catch_witness :
  let a1 := {| id := 1; symbol := "BTC"; condition := "above";
               target_price := int 70000; active := true; triggered_count := 0;
               notification_types := "email" |} in
  let w := set_state (set_alerts [a1]) (started None) in
  unhandled (snd (deleteClick true 1 FetchRejected w)) = Some FetchError
  /\ toast (snd (deleteClick true 1 FetchRejected w)) = None
  /\ unhandled (snd (toggleClick 1 FetchRejected w)) = Some FetchError.
Proof.
  intros a1 w.
  destruct (card_handlers_do_not_catch w 1 FetchRejected FetchRejected
              FetchRejected FetchError FetchError FetchError
              eq_refl eq_refl eq_refl)
    as (_ & (_ & Hdelete) & (_ & Htoggle) & _).
  rewrite Hdelete, Htoggle. repeat split; reflexivity.
Defined.
